(** * Mneme decision simulator: a shallow embedding of
      [Backend/decision_simulator.py] and the properties of its
      Monte Carlo engine and sensitivity sweep.

    Conventions of the embedding.
    - A Python [float] is a rational number [Q] with exact arithmetic
      (no rounding, no NaN, no infinities).  Every concrete evaluation
      below uses dyadic values, on which binary floating point is exact
      as well.  The general statements equate results of the same
      operations, or use signs and comparisons that rounding preserves;
      none relies on an identity of exact arithmetic (a sum of
      quotients equal to 1, a mean between the extremes) that rounded
      arithmetic does not have.
    - A Python [int] is a [Z].
    - A Python [dict] is an insertion-ordered association list with
      unique keys: assigning to an existing key keeps its position,
      assigning to a new key appends it.  Iteration order is list order.
    - A raised exception is the [Raise] case of [result].
    - [numpy.random.Generator] is an abstract state with one operation,
      [normal]. *)

From Stdlib Require Import ZArith QArith Qround List String Bool Lia Sorted.
From Stdlib Require Import Lqa Permutation.
Import ListNotations.

Local Open Scope Z_scope.
Local Open Scope Q_scope.

(* ------------------------------------------------------------------ *)
(** ** Exceptions *)

(** The exceptions the module can raise.  [NonFinite] is not one of
    them: it marks a float result that is inf or NaN, which [Q] does
    not have.  The model stops there, where Python goes on with the
    value and may still return; what such a run returns is outside the
    model, and a statement about returned results covers the runs
    whose divisors are not 0. *)
Inductive exn : Type :=
| KeyError
| ValueError
| ZeroDivisionError
| NonFinite.

Inductive result (A : Type) : Type :=
| Ok (a : A)
| Raise (e : exn).

Arguments Ok {A} a.
Arguments Raise {A} e.

Definition bind {A B : Type} (m : result A) (k : A -> result B) : result B :=
  match m with
  | Ok a => k a
  | Raise e => Raise e
  end.

Declare Scope py_scope.
Delimit Scope py_scope with py.
Notation "x <- m ;; k" := (bind m (fun x => k))
  (at level 61, m at next level, right associativity) : py_scope.
Notation "' p <- m ;; k" := (bind m (fun x => match x with p => k end))
  (at level 61, p pattern, m at next level, right associativity) : py_scope.

(** [for x in l: acc = f(acc, x)] where the body may raise. *)
Fixpoint for_each {A B : Type} (f : A -> B -> result A) (l : list B) (acc : A)
  : result A :=
  match l with
  | [] => Ok acc
  | x :: l' =>
      match f acc x with
      | Ok acc' => for_each f l' acc'
      | Raise e => Raise e
      end
  end.

(* ------------------------------------------------------------------ *)
(** ** Floats *)

Definition Qltb (x y : Q) : bool := negb (Qle_bool y x).

(** [a / b] on Python numbers: raises on a zero divisor. *)
Definition py_div (a b : Q) : result Q :=
  if Qeq_bool b 0 then Raise ZeroDivisionError else Ok (a / b).

(** [a / b] with a [numpy.float64] operand: a zero divisor gives inf or
    NaN and a warning, no exception, and the run goes on.  The model
    has no such value and ends the run with [NonFinite]. *)
Definition np_div (a b : Q) : result Q :=
  if Qeq_bool b 0 then Raise NonFinite else Ok (a / b).

(** [sum(xs)]: left to right, starting from 0. *)
Definition py_sum (xs : list Q) : Q := fold_left Qplus xs 0.

(** The two-argument builtins: [min(a, b)] is [b] only when [b < a],
    [max(a, b)] is [b] only when [b > a]. *)
Definition py_min (a b : Q) : Q := if Qltb b a then b else a.
Definition py_max (a b : Q) : Q := if Qltb a b then b else a.

(* ------------------------------------------------------------------ *)
(** ** Insertion-ordered dictionaries *)

Class EqKey (K : Type) : Type := {
  keqb : K -> K -> bool;
  keqb_eq : forall a b, keqb a b = true <-> a = b
}.

#[export] Instance EqKey_Z : EqKey Z :=
  {| keqb := Z.eqb; keqb_eq := Z.eqb_eq |}.

#[export] Instance EqKey_string : EqKey string :=
  {| keqb := String.eqb; keqb_eq := String.eqb_eq |}.

Definition dict (K V : Type) : Type := list (K * V).

Section Dict.
Context {K V : Type} `{EqKey K}.

(** [d.get(k)] *)
Fixpoint get (k : K) (d : dict K V) : option V :=
  match d with
  | [] => None
  | (k', v) :: d' => if keqb k k' then Some v else get k d'
  end.

(** [d[k]] *)
Definition getitem (k : K) (d : dict K V) : result V :=
  match get k d with
  | Some v => Ok v
  | None => Raise KeyError
  end.

(** [k in d] *)
Definition contains (k : K) (d : dict K V) : bool :=
  match get k d with
  | Some _ => true
  | None => false
  end.

(** [d[k] = v] *)
Fixpoint set (k : K) (v : V) (d : dict K V) : dict K V :=
  match d with
  | [] => [(k, v)]
  | (k', v') :: d' =>
      if keqb k k' then (k, v) :: d' else (k', v') :: set k v d'
  end.

Definition keys (d : dict K V) : list K := map fst d.
Definition values (d : dict K V) : list V := map snd d.
End Dict.

(** [{key(x): val(x) for x in xs}] *)
Definition dict_of {A K V : Type} `{EqKey K}
  (key : A -> K) (val : A -> V) (xs : list A) : dict K V :=
  fold_left (fun d x => set (key x) (val x) d) xs [].

(** [max(d, key=d.get)]: the first key, in iteration order, whose value
    is not exceeded; raises on an empty dictionary. *)
Fixpoint max_from {K : Type} (best : K) (best_v : Q) (d : dict K Q) : K :=
  match d with
  | [] => best
  | (k, v) :: d' =>
      if Qltb best_v v then max_from k v d' else max_from best best_v d'
  end.

Definition py_max_key {K : Type} (d : dict K Q) : result K :=
  match d with
  | [] => Raise ValueError
  | (k, v) :: d' => Ok (max_from k v d')
  end.

(* ------------------------------------------------------------------ *)
(** ** Data classes *)

Module Choice.
Record t : Type := mk {
  id : Z;
  name : string;
  description : option string
}.
End Choice.

Module Factor.
Record t : Type := mk {
  id : Z;
  name : string;
  weight : Q;
  description : option string
}.
End Factor.

Module Score.
Record t : Type := mk {
  choice_id : Z;
  factor_id : Z;
  score : Q;
  uncertainty : Q
}.
End Score.

(** [config.py] *)
Definition DEFAULT_SIMULATION_RUNS : Z := 1000%Z.
Definition MAX_SIMULATION_RUNS : Z := 10000%Z.

(* ------------------------------------------------------------------ *)
(** ** The simulator object *)

Record DecisionSimulator : Type := mkSim {
  choices : dict Z Choice.t;
  factors : dict Z Factor.t;
  scores : dict Z (dict Z Score.t);
  normalized_weights : dict Z Q
}.

(** [_organize_scores]: [choice_id -> factor_id -> Score].  A choice seen
    for the first time gets an empty row, then the row is updated. *)
Definition organize_step (organized : dict Z (dict Z Score.t)) (s : Score.t)
  : dict Z (dict Z Score.t) :=
  let organized1 :=
    if contains (Score.choice_id s) organized then organized
    else set (Score.choice_id s) [] organized in
  match get (Score.choice_id s) organized1 with
  | Some row => set (Score.choice_id s) (set (Score.factor_id s) s row) organized1
  | None => organized1
  end.

Definition organize_scores (ss : list Score.t) : dict Z (dict Z Score.t) :=
  fold_left organize_step ss [].

(** [total_weight = sum(f.weight for f in factors)] *)
Definition total_weight (fs : list Factor.t) : Q :=
  py_sum (map Factor.weight fs).

(** The value of one entry of the weight comprehension. *)
Definition normalized_weight (fs : list Factor.t) (f : Factor.t) : Q :=
  if Qltb 0 (total_weight fs)
  then Factor.weight f / total_weight fs
  else 1 / inject_Z (Z.of_nat (List.length fs)).

(** [DecisionSimulator.__init__] *)
Definition init (cs : list Choice.t) (fs : list Factor.t) (ss : list Score.t)
  : DecisionSimulator :=
  {| choices := dict_of Choice.id (fun c => c) cs;
     factors := dict_of Factor.id (fun f => f) fs;
     scores := organize_scores ss;
     normalized_weights := dict_of Factor.id (normalized_weight fs) fs |}.

(** [calculate_weighted_score] *)
Definition weighted_step (row : dict Z Score.t) (total : Q) (item : Z * Q) : Q :=
  let (factor_id, weight) := item in
  match get factor_id row with
  | Some s => total + Score.score s * weight
  | None => total
  end.

Definition calculate_weighted_score (self : DecisionSimulator) (choice_id : Z)
  : Q :=
  match get choice_id (scores self) with
  | None => 0
  | Some row => fold_left (weighted_step row) (normalized_weights self) 0
  end.

(* ------------------------------------------------------------------ *)
(** ** The random stream *)

(** [rng.normal(loc, scale)] returns a draw and advances the stream. *)
Class Generator (G : Type) : Type := {
  normal : Q -> Q -> G -> Q * G
}.

Section Engine.
Context {G : Type} `{Generator G}.

(** The sampling block of [simulate_once]: one draw for one Score. *)
Definition sample_score (score_obj : Score.t) (rng : G) : Q * G :=
  if Qltb 0 (Score.uncertainty score_obj) then
    let (sampled, rng') :=
      normal (Score.score score_obj) (Score.uncertainty score_obj) rng in
    (py_max 0 (py_min 10 sampled), rng')
  else (Score.score score_obj, rng).

(** [simulate_once] *)
Definition simulate_step (row : dict Z Score.t) (acc : Q * G) (item : Z * Q)
  : Q * G :=
  let (total, rng) := acc in
  let (factor_id, weight) := item in
  match get factor_id row with
  | Some score_obj =>
      let (sampled, rng') := sample_score score_obj rng in
      (total + sampled * weight, rng')
  | None => (total, rng)
  end.

Definition simulate_once (self : DecisionSimulator) (choice_id : Z) (rng : G)
  : Q * G :=
  match get choice_id (scores self) with
  | None => (0, rng)
  | Some row => fold_left (simulate_step row) (normalized_weights self) (0, rng)
  end.

(** *** [run_simulation], the rounds *)

(** Body of [for choice_id in self.choices]. *)
Definition round_step (self : DecisionSimulator)
  (st : dict Z Q * dict Z (list Q) * G) (choice_id : Z)
  : result (dict Z Q * dict Z (list Q) * G) :=
  let '(round_scores, all_results, rng) := st in
  let (total, rng') := simulate_once self choice_id rng in
  let round_scores' := set choice_id total round_scores in
  (series <- getitem choice_id all_results ;;
   v <- getitem choice_id round_scores' ;;
   Ok (round_scores', set choice_id (series ++ [v]) all_results, rng'))%py.

(** [if round_scores: winner = max(...); win_counts[winner] += 1] *)
Definition count_winner (round_scores : dict Z Q) (win_counts : dict Z Z)
  : result (dict Z Z) :=
  match round_scores with
  | [] => Ok win_counts
  | _ :: _ =>
      (winner <- py_max_key round_scores ;;
       c <- getitem winner win_counts ;;
       Ok (set winner (c + 1)%Z win_counts))%py
  end.

(** Body of [for _ in range(num_runs)]. *)
Definition run_round (self : DecisionSimulator)
  (st : dict Z (list Q) * dict Z Z * G)
  : result (dict Z (list Q) * dict Z Z * G) :=
  let '(all_results, win_counts, rng) := st in
  ('(round_scores, all_results', rng') <-
      for_each (round_step self) (keys (choices self)) ([], all_results, rng) ;;
   win_counts' <- count_winner round_scores win_counts ;;
   Ok (all_results', win_counts', rng'))%py.

Fixpoint repeat_rounds (self : DecisionSimulator) (n : nat)
  (st : dict Z (list Q) * dict Z Z * G)
  : result (dict Z (list Q) * dict Z Z * G) :=
  match n with
  | O => Ok st
  | S n' =>
      match run_round self st with
      | Ok st' => repeat_rounds self n' st'
      | Raise e => Raise e
      end
  end.

(** Lines 113 to 127: the two tables and the loop over [range(num_runs)];
    [num_runs] is the capped count. *)
Definition simulate_rounds (self : DecisionSimulator) (num_runs : Z) (rng : G)
  : result (dict Z (list Q) * dict Z Z * G) :=
  let all_results :=
    dict_of (fun cid => cid) (fun _ => @nil Q) (keys (choices self)) in
  let win_counts :=
    dict_of (fun cid => cid) (fun _ => 0%Z) (keys (choices self)) in
  repeat_rounds self (Z.to_nat num_runs) (all_results, win_counts, rng).
End Engine.

(* ------------------------------------------------------------------ *)
(** ** Statistics *)

Definition Qlen {A : Type} (xs : list A) : Q := inject_Z (Z.of_nat (List.length xs)).

(** [np.mean]; on an empty array numpy warns and yields NaN, which has
    no image in [Q]: the only caller takes [np.min] of the same array
    next, and that raises. *)
Definition np_mean (xs : list Q) : Q := py_sum xs / Qlen xs.

(** The square of [np.std] (population variance): the square root
    leaves [Q]. *)
Definition np_std_squared (xs : list Q) : Q :=
  let m := np_mean xs in
  np_mean (map (fun x => (x - m) * (x - m)) xs).

(** [np.min] and [np.max]: no identity on a zero-size array. *)
Definition np_min (xs : list Q) : result Q :=
  match xs with
  | [] => Raise ValueError
  | x :: xs' => Ok (fold_left (fun m y => if Qltb y m then y else m) xs' x)
  end.

Definition np_max (xs : list Q) : result Q :=
  match xs with
  | [] => Raise ValueError
  | x :: xs' => Ok (fold_left (fun m y => if Qltb m y then y else m) xs' x)
  end.

Fixpoint insert_asc (x : Q) (l : list Q) : list Q :=
  match l with
  | [] => [x]
  | y :: l' => if Qle_bool x y then x :: l else y :: insert_asc x l'
  end.

Definition sort_asc (l : list Q) : list Q := fold_right insert_asc [] l.

(** [np.percentile(a, q)], linear interpolation between the two order
    statistics around the virtual index [(n - 1) * q / 100]. *)
Definition np_percentile (a : list Q) (q : Q) : Q :=
  let s := sort_asc a in
  let last := (Z.of_nat (List.length a) - 1)%Z in
  let virtual := inject_Z last * (q / 100) in
  let previous := Qfloor virtual in
  let next := Z.min (previous + 1) last in
  let gamma := virtual - inject_Z previous in
  let lo := nth (Z.to_nat previous) s 0 in
  let hi := nth (Z.to_nat next) s 0 in
  lo + gamma * (hi - lo).

(** [sorted(xs, key=key, reverse=True)]: descending and stable, entries
    with equal keys keep their input order. *)
Fixpoint insert_desc {A : Type} (key : A -> Q) (x : A) (l : list A) : list A :=
  match l with
  | [] => [x]
  | y :: l' =>
      if Qltb (key x) (key y) then y :: insert_desc key x l' else x :: l
  end.

Definition sorted_reverse {A : Type} (key : A -> Q) (l : list A) : list A :=
  fold_right (insert_desc key) [] l.

(* ------------------------------------------------------------------ *)
(** ** The report *)

Module ChoiceResult.
Record t : Type := mk {
  choice_id : Z;
  name : string;
  deterministic_score : Q;
  mean : Q;
  std_squared : Q;
  min : Q;
  max : Q;
  percentile_5 : Q;
  percentile_25 : Q;
  percentile_50 : Q;
  percentile_75 : Q;
  percentile_95 : Q;
  win_rate : Q
}.
End ChoiceResult.

Record SimulationReport : Type := mkReport {
  num_simulations : Z;
  choice_results : dict Z ChoiceResult.t;
  rankings : list ChoiceResult.t;
  win_rates : dict string Q
}.

(** The dictionary display built for one choice; its values are
    evaluated top to bottom. *)
Definition choice_result (self : DecisionSimulator) (win_counts : dict Z Z)
  (num_runs : Z) (choice_id : Z) (results : list Q) : result ChoiceResult.t :=
  (c <- getitem choice_id (choices self) ;;
   let deterministic := calculate_weighted_score self choice_id in
   let mean := np_mean results in
   let var := np_std_squared results in
   lo <- np_min results ;;
   hi <- np_max results ;;
   count <- getitem choice_id win_counts ;;
   rate <- py_div (inject_Z count) (inject_Z num_runs) ;;
   Ok (ChoiceResult.mk choice_id (Choice.name c) deterministic mean var lo hi
         (np_percentile results 5) (np_percentile results 25)
         (np_percentile results 50) (np_percentile results 75)
         (np_percentile results 95) rate))%py.

(** Body of [for choice_id, results in all_results.items()]. *)
Definition results_step (self : DecisionSimulator) (win_counts : dict Z Z)
  (num_runs : Z) (choice_results : dict Z ChoiceResult.t)
  (item : Z * list Q) : result (dict Z ChoiceResult.t) :=
  let (choice_id, results) := item in
  (r <- choice_result self win_counts num_runs choice_id results ;;
   Ok (set choice_id r choice_results))%py.

(** One entry of the [win_rates] comprehension. *)
Definition win_rate_step (self : DecisionSimulator) (num_runs : Z)
  (rates : dict string Q) (item : Z * Z) : result (dict string Q) :=
  let (cid, count) := item in
  (c <- getitem cid (choices self) ;;
   rate <- py_div (inject_Z count) (inject_Z num_runs) ;;
   Ok (set (Choice.name c) rate rates))%py.

(** Lines 129 to 164: statistics, rankings and the returned dictionary. *)
Definition build_report (self : DecisionSimulator) (num_runs : Z)
  (all_results : dict Z (list Q)) (win_counts : dict Z Z)
  : result SimulationReport :=
  (results <- for_each (results_step self win_counts num_runs) all_results [] ;;
   let ranked := sorted_reverse ChoiceResult.mean (values results) in
   rates <- for_each (win_rate_step self num_runs) win_counts [] ;;
   Ok (mkReport num_runs results ranked rates))%py.

(** [run_simulation]; [rng] is the stream [np.random.default_rng(seed)]. *)
Definition run_simulation {G : Type} `{Generator G}
  (self : DecisionSimulator) (num_runs : Z) (rng : G) : result SimulationReport :=
  let num_runs := Z.min num_runs MAX_SIMULATION_RUNS in
  ('(all_results, win_counts, _) <- simulate_rounds self num_runs rng ;;
   build_report self num_runs all_results win_counts)%py.

(** [run_decision_simulation], once the dictionaries of [decision_data]
    are read into data classes. *)
Definition run_decision_simulation {G : Type} `{Generator G}
  (cs : list Choice.t) (fs : list Factor.t) (ss : list Score.t)
  (num_runs : Z) (rng : G) : result SimulationReport :=
  run_simulation (init cs fs ss) num_runs rng.

(* ------------------------------------------------------------------ *)
(** ** Sensitivity analysis *)

(** [np.linspace(start, stop, num)] with the default [endpoint=True]. *)
Definition linspace (start stop : Q) (num : Z) : result (list Q) :=
  if (num <? 0)%Z then Raise ValueError
  else
    let step := (stop - start) / inject_Z (num - 1) in
    Ok (map (fun i : nat =>
               if ((1 <? num) && (Z.of_nat i =? num - 1))%Z then stop
               else inject_Z (Z.of_nat i) * step + start)
            (seq 0 (Z.to_nat num))).

(** The method assigns to [self.normalized_weights] and to entries of
    that dictionary, so it is a computation over the simulator object
    that may raise; the object is returned in either case. *)
Definition M (A : Type) : Type :=
  DecisionSimulator -> result A * DecisionSimulator.

Definition ret {A : Type} (a : A) : M A := fun self => (Ok a, self).

Definition lift {A : Type} (r : result A) : M A := fun self => (r, self).

Definition bindM {A B : Type} (m : M A) (k : A -> M B) : M B :=
  fun self =>
    match m self with
    | (Ok a, self') => k a self'
    | (Raise e, self') => (Raise e, self')
    end.

Declare Scope self_scope.
Delimit Scope self_scope with self.
Notation "x <- m ;; k" := (bindM m (fun x => k))
  (at level 61, m at next level, right associativity) : self_scope.
Notation "m ;; k" := (bindM m (fun _ => k))
  (at level 61, right associativity) : self_scope.

(** Read an attribute of [self]. *)
Definition read {A : Type} (f : DecisionSimulator -> A) : M A :=
  fun self => (Ok (f self), self).

(** [self.normalized_weights = table] *)
Definition assign_weights (table : dict Z Q) : M unit :=
  fun self =>
    (Ok tt, mkSim (choices self) (factors self) (scores self) table).

(** [self.normalized_weights[k] = v] *)
Definition store_weight (k : Z) (v : Q) : M unit :=
  (table <- read normalized_weights ;; assign_weights (set k v table))%self.

Fixpoint for_eachM {A B : Type} (f : A -> B -> M A) (l : list B) (acc : A)
  : M A :=
  match l with
  | [] => ret acc
  | x :: l' => (acc' <- f acc x ;; for_eachM f l' acc')%self
  end.

Record SensitivityEntry : Type := mkEntry {
  multiplier : Q;
  entry_scores : dict string Q;
  winner : string
}.

Record SensitivityReport : Type := mkSensitivity {
  report_factor_id : Z;
  factor_name : string;
  analysis : list SensitivityEntry
}.

(** [{k: v/total for k, v in table.items()}]; [total] is a
    [numpy.float64], as the multiplier is. *)
Definition renormalize (total : Q) (table : dict Z Q) : result (dict Z Q) :=
  for_each (fun temp (item : Z * Q) =>
              let (k, v) := item in
              (q <- np_div v total ;; Ok (set k q temp))%py)
           table [].

(** [{self.choices[cid].name: self.calculate_weighted_score(cid)
      for cid in self.choices}] *)
Definition name_scores (self : DecisionSimulator) : result (dict string Q) :=
  for_each (fun named cid =>
              (c <- getitem cid (choices self) ;;
               Ok (set (Choice.name c) (calculate_weighted_score self cid) named))%py)
           (keys (choices self)) [].

(** Body of [for multiplier in np.linspace(...)]. *)
Definition sensitivity_step (factor_id : Z) (original_weight : Q)
  (results : list SensitivityEntry) (multiplier : Q) : M (list SensitivityEntry) :=
  (let test_weight := original_weight * multiplier in
   table <- read normalized_weights ;;
   old_weight <- lift (getitem factor_id table) ;;
   store_weight factor_id test_weight ;;
   table <- read normalized_weights ;;
   let total := py_sum (values table) in
   temp_normalized <- lift (renormalize total table) ;;
   assign_weights temp_normalized ;;
   self <- read (fun self => self) ;;
   scores <- lift (name_scores self) ;;
   winner <- lift (py_max_key scores) ;;
   let results' := results ++ [mkEntry multiplier scores winner] in
   store_weight factor_id old_weight ;;
   ret results')%self.

(** [sensitivity_analysis] *)
Definition sensitivity_analysis (factor_id : Z) (weight_range : Q * Q)
  (steps : Z) : M SensitivityReport :=
  (table <- read normalized_weights ;;
   let original_weight :=
     match get factor_id table with Some w => w | None => 1 end in
   multipliers <- lift (linspace (fst weight_range) (snd weight_range) steps) ;;
   results <- for_eachM (sensitivity_step factor_id original_weight) multipliers [] ;;
   table <- read factors ;;
   f <- lift (getitem factor_id table) ;;
   ret (mkSensitivity factor_id (Factor.name f) results))%self.

(* ------------------------------------------------------------------ *)
(** ** A replayed stream for evaluating the model *)

(** A generator that replays a tape of standard normal deviates [z]:
    a draw is [loc + scale * z]; an exhausted tape keeps yielding the
    mean. *)
Module Tape.
Definition t : Type := list Q.

Definition draw (loc scale : Q) (tape : t) : Q * t :=
  match tape with
  | [] => (loc, [])
  | z :: tape' => (loc + scale * z, tape')
  end.

#[export] Instance generator : Generator t := {| normal := draw |}.
End Tape.
Export Tape.

(* ------------------------------------------------------------------ *)
(** ** Derived notions used in the statements *)

(** [self.scores[c][f]] when both keys are present. *)
Definition score_at (organized : dict Z (dict Z Score.t)) (c f : Z)
  : option Score.t :=
  match get c organized with
  | Some row => get f row
  | None => None
  end.

(** The sum of the win counters. *)
Definition sum_counts (win_counts : dict Z Z) : Z :=
  fold_right Z.add 0%Z (values win_counts).

(** A table of floats with every value in lowest terms, to compare
    evaluated tables by [=]. *)
Definition reduced {K : Type} (d : dict K Q) : dict K Q :=
  map (fun kv => (fst kv, Qred (snd kv))) d.

(* ------------------------------------------------------------------ *)
(** ** Concrete decisions *)

Module Examples.
Definition cost : Factor.t := Factor.mk 1 "cost" 1 None.
Definition joy : Factor.t := Factor.mk 2 "joy" 3 None.
Definition idle : Factor.t := Factor.mk 3 "idle" 0 None.

Definition stay : Choice.t := Choice.mk 1 "stay" None.
Definition move : Choice.t := Choice.mk 2 "move" None.

(** Two choices, two factors of raw weight 1 and 3, no uncertainty. *)
Definition marks : list Score.t :=
  [Score.mk 1 1 8 0; Score.mk 1 2 4 0; Score.mk 2 1 4 0; Score.mk 2 2 8 0].

Definition sim : DecisionSimulator := init [stay; move] [cost; joy] marks.



(** A Score with negative uncertainty, one with a positive one, and
    one under a factor id that no factor has. *)
Definition negative : Score.t := Score.mk 1 1 5 (-1).
Definition noisy : Score.t := Score.mk 1 1 5 2.
Definition stray : Score.t := Score.mk 1 9 10 0.

Definition tape : Tape.t := [3; -4; 1 # 2].

Definition report3 : SimulationReport :=
  Eval vm_compute in
    match run_simulation sim 3 tape with
    | Ok report => report
    | Raise _ => mkReport 0 [] [] []
    end.


End Examples.

(* ------------------------------------------------------------------ *)
(** ** Notions for the further properties *)

(** [s] is a Score of choice [c] on factor [f]. *)
Definition scores_pair (c f : Z) (s : Score.t) : bool :=
  ((Score.choice_id s =? c) && (Score.factor_id s =? f))%Z.

(** Two tables of floats with the same keys in the same order and equal
    numbers under each key. *)
Definition same_table {K : Type} (d1 d2 : dict K Q) : Prop :=
  Forall2 (fun kv1 kv2 => fst kv1 = fst kv2 /\ snd kv1 == snd kv2) d1 d2.

(** The simulator [self] with another weight table. *)
Definition with_weights (self : DecisionSimulator) (table : dict Z Q)
  : DecisionSimulator :=
  mkSim (choices self) (factors self) (scores self) table.

(** The name the choice table holds for a choice id. *)
Definition name_of (self : DecisionSimulator) (cid : Z) : string :=
  match get cid (choices self) with
  | Some c => Choice.name c
  | None => EmptyString
  end.

Module MoreExamples.
(** A second mark of [stay] on [cost]. *)
Definition remark : Score.t := Score.mk 1 1 2 0.

(** A Score of [stay] on [cost] with uncertainty. *)
Definition shaky : list Score.t :=
  [Score.mk 1 1 8 3; Score.mk 1 2 4 0; Score.mk 2 1 4 0; Score.mk 2 2 8 0].



(** A sweep of the same factor whose first multiplier is 1, and a sweep
    of that single step. *)
Definition unit_report : SensitivityReport :=
  Eval vm_compute in
    match fst (sensitivity_analysis 1 (1, 3) 3 Examples.sim) with
    | Ok report => report
    | Raise _ => mkSensitivity 0 EmptyString []
    end.

Definition unit_after : DecisionSimulator :=
  Eval vm_compute in snd (sensitivity_analysis 1 (1, 3) 3 Examples.sim).

(** A sweep of a single step at multiplier 3. *)
Definition single_report : SensitivityReport :=
  Eval vm_compute in
    match fst (sensitivity_analysis 1 (3, 3) 1 Examples.sim) with
    | Ok report => report
    | Raise _ => mkSensitivity 0 EmptyString []
    end.

Definition single_after : DecisionSimulator :=
  Eval vm_compute in snd (sensitivity_analysis 1 (3, 3) 1 Examples.sim).
End MoreExamples.

(* ================================================================== *)
(** * Properties *)

(** ** Comparisons on floats *)

Lemma Qltb_lt (x y : Q) : Qltb x y = true <-> x < y.
Proof.
  unfold Qltb. rewrite negb_true_iff.
  split; intro Hxy.
  - apply Qnot_le_lt. intro Hle.
    apply Qle_bool_iff in Hle. congruence.
  - destruct (Qle_bool y x) eqn:E; [|reflexivity].
    apply Qle_bool_iff in E. exfalso. exact (Qlt_not_le _ _ Hxy E).
Qed.

Lemma Qltb_ge (x y : Q) : Qltb x y = false <-> y <= x.
Proof.
  unfold Qltb. rewrite negb_false_iff. apply Qle_bool_iff.
Qed.

Lemma py_min_upper (a b : Q) : py_min a b <= a.
Proof.
  unfold py_min. destruct (Qltb b a) eqn:E.
  - apply Qltb_lt in E. apply Qlt_le_weak, E.
  - apply Qle_refl.
Qed.

Lemma py_max_lower (a b : Q) : a <= py_max a b.
Proof.
  unfold py_max. destruct (Qltb a b) eqn:E.
  - apply Qltb_lt in E. apply Qlt_le_weak, E.
  - apply Qle_refl.
Qed.

Lemma py_max_upper (a b c : Q) : a <= c -> b <= c -> py_max a b <= c.
Proof.
  intros Ha Hb. unfold py_max. destruct (Qltb a b); assumption.
Qed.

(** [max(0, min(10, x))] lies in [[0, 10]] for every draw [x]. *)
Lemma clamp_range (x : Q) : 0 <= py_max 0 (py_min 10 x) <= 10.
Proof.
  split.
  - apply py_max_lower.
  - apply py_max_upper; [discriminate | apply py_min_upper].
Qed.

(** ** Dictionaries *)

Section DictFacts.
Context {K V : Type} `{EqKey K}.

Lemma keqb_refl (k : K) : keqb k k = true.
Proof. apply keqb_eq. reflexivity. Qed.

Lemma keqb_neq (a b : K) : a <> b -> keqb a b = false.
Proof.
  intro Hab. destruct (keqb a b) eqn:E; [|reflexivity].
  apply keqb_eq in E. contradiction.
Qed.

Lemma key_dec (a b : K) : {a = b} + {a <> b}.
Proof.
  destruct (keqb a b) eqn:E.
  - left. apply keqb_eq, E.
  - right. intro Hab. apply keqb_eq in Hab. congruence.
Defined.

Lemma get_set_eq (k : K) (v : V) (d : dict K V) : get k (set k v d) = Some v.
Proof.
  induction d as [|[k' v'] d IH]; simpl.
  - rewrite keqb_refl. reflexivity.
  - destruct (keqb k k') eqn:E; simpl.
    + rewrite keqb_refl. reflexivity.
    + rewrite E. exact IH.
Qed.

Lemma get_set_ne (k k' : K) (v : V) (d : dict K V) :
  k <> k' -> get k' (set k v d) = get k' d.
Proof.
  intro Hne. induction d as [|[k0 v0] d IH]; simpl.
  - rewrite (keqb_neq k' k); [reflexivity | congruence].
  - destruct (keqb k k0) eqn:E; simpl.
    + apply keqb_eq in E. subst k0.
      rewrite (keqb_neq k' k); [reflexivity | congruence].
    + rewrite IH. reflexivity.
Qed.

Lemma get_None_keys (k : K) (d : dict K V) :
  get k d = None <-> ~ In k (keys d).
Proof.
  induction d as [|[k' v'] d IH]; simpl.
  - split; [intros _ []|reflexivity].
  - destruct (keqb k k') eqn:E.
    + apply keqb_eq in E. subst k'. split; [discriminate|].
      intro Hn. exfalso. apply Hn. left. reflexivity.
    + rewrite IH. split.
      * intros Hn [Heq|Hin]; [|exact (Hn Hin)].
        subst k'. rewrite keqb_refl in E. discriminate.
      * intros Hn Hin. apply Hn. right. exact Hin.
Qed.

Lemma get_Some_keys (k : K) (d : dict K V) :
  In k (keys d) -> exists v, get k d = Some v.
Proof.
  intro Hin. destruct (get k d) as [v|] eqn:E.
  - exists v. reflexivity.
  - apply get_None_keys in E. contradiction.
Qed.

Lemma keys_set_present (k : K) (v v0 : V) (d : dict K V) :
  get k d = Some v0 -> keys (set k v d) = keys d.
Proof.
  unfold keys.
  induction d as [|[k' v'] d IH]; simpl; [discriminate|].
  destruct (keqb k k') eqn:E; simpl.
  - intros _. apply keqb_eq in E. subst k'. reflexivity.
  - intro Hg. f_equal. exact (IH Hg).
Qed.

Lemma keys_set_absent (k : K) (v : V) (d : dict K V) :
  get k d = None -> keys (set k v d) = keys d ++ [k].
Proof.
  unfold keys.
  induction d as [|[k' v'] d IH]; simpl; [reflexivity|].
  destruct (keqb k k') eqn:E; simpl; [discriminate|].
  intro Hg. f_equal. exact (IH Hg).
Qed.
End DictFacts.

(** A comprehension [{key(x): g(x) for x in xs}] holds, under each key,
    [g] of what [{key(x): x for x in xs}] holds there. *)
Lemma get_dict_of_map {A K V : Type} `{EqKey K}
  (key : A -> K) (g : A -> V) (xs : list A) (k : K) :
  get k (dict_of key g xs) = option_map g (get k (dict_of key (fun x => x) xs)).
Proof.
  unfold dict_of.
  assert (Hgen : forall (d : dict K V) (d' : dict K A),
             (forall k0, get k0 d = option_map g (get k0 d')) ->
             get k (fold_left (fun d x => set (key x) (g x) d) xs d) =
             option_map g
               (get k (fold_left (fun d x => set (key x) x d) xs d'))).
  { induction xs as [|x xs IH]; intros d d' Hrel; simpl.
    - apply Hrel.
    - apply IH. intro k0.
      destruct (key_dec (key x) k0) as [->|Hne].
      + rewrite !get_set_eq. reflexivity.
      + rewrite !get_set_ne by assumption. apply Hrel. }
  apply Hgen. intro k0. reflexivity.
Qed.


Lemma find_snoc {A : Type} (p : A -> bool) (l : list A) (x : A) :
  find p (l ++ [x]) =
  match find p l with
  | Some y => Some y
  | None => if p x then Some x else None
  end.
Proof.
  induction l as [|y l IH]; simpl; [reflexivity|].
  destruct (p y); [reflexivity | exact IH].
Qed.

(** Under each key a comprehension holds the last element supplied
    with that key. *)
Lemma dict_of_get_last {A K : Type} `{EqKey K} (key : A -> K)
  (xs : list A) (k : K) :
  get k (dict_of key (fun x => x) xs) =
  find (fun x => keqb (key x) k) (rev xs).
Proof.
  unfold dict_of.
  assert (Hgen : forall d : dict K A,
             get k (fold_left (fun d x => set (key x) x d) xs d) =
             match find (fun x => keqb (key x) k) (rev xs) with
             | Some x => Some x
             | None => get k d
             end).
  { induction xs as [|x xs IH]; intro d; simpl; [reflexivity|].
    rewrite IH, find_snoc.
    destruct (find (fun x0 => keqb (key x0) k) (rev xs)); [reflexivity|].
    destruct (keqb (key x) k) eqn:E.
    - apply keqb_eq in E. subst k. apply get_set_eq.
    - apply get_set_ne. intro Heq. subst k.
      rewrite keqb_refl in E. discriminate. }
  rewrite Hgen. destruct (find _ (rev xs)); reflexivity.
Qed.

(* ------------------------------------------------------------------ *)
(** ** Weight normalizer *)

(** With pairwise distinct ids every supplied factor is the one the
    factor table holds under its id. *)
Lemma dict_of_distinct {A K : Type} `{EqKey K} (key : A -> K) (xs : list A) :
  NoDup (map key xs) ->
  forall x, In x xs -> get (key x) (dict_of key (fun y => y) xs) = Some x.
Proof.
  unfold dict_of.
  assert (Hgen : forall (d : dict K A) x,
             NoDup (map key xs) ->
             (In x xs \/ (~ In (key x) (map key xs) /\ get (key x) d = Some x)) ->
             get (key x) (fold_left (fun d y => set (key y) y d) xs d) = Some x).
  { induction xs as [|y xs IH]; intros d x Hnd Hx; simpl.
    - destruct Hx as [[]|[_ Hg]]. exact Hg.
    - inversion Hnd as [|? ? Hnotin Hnd']; subst.
      apply IH; [exact Hnd'|].
      destruct Hx as [[->|Hin]|[Hnot Hg]].
      + right. split; [exact Hnotin | apply get_set_eq].
      + left. exact Hin.
      + right. split.
        * intro Hin. apply Hnot. right. exact Hin.
        * rewrite get_set_ne; [exact Hg|].
          intro Heq. apply Hnot. left. exact Heq. }
  intros Hnd x Hin. apply Hgen; [exact Hnd | left; exact Hin].
Qed.

Lemma factors_of_distinct_ids (cs : list Choice.t) (fs : list Factor.t)
  (ss : list Score.t) (f : Factor.t) :
  NoDup (map Factor.id fs) -> In f fs ->
  get (Factor.id f) (factors (init cs fs ss)) = Some f.
Proof.
  intros Hnd Hin. simpl. apply dict_of_distinct; assumption.
Qed.

Lemma normalized_weights_lookup (cs : list Choice.t) (fs : list Factor.t)
  (ss : list Score.t) (k : Z) :
  get k (normalized_weights (init cs fs ss)) =
  option_map (normalized_weight fs) (get k (factors (init cs fs ss))).
Proof. simpl. apply get_dict_of_map. Qed.

(** C7. Weight normalization.  [T] is the sum of the raw weights of the
    supplied factors, added left to right from 0 as [sum] does, and [n]
    is the number of supplied factors.  If [T > 0] the weight table
    holds [weight / T] for every factor; if [T == 0] and the list is
    not empty it holds [1 / n] for every factor; if the list is empty
    the table is empty.  Under an id the table holds the value of the
    last factor supplied with that id and nothing for an id that was
    not supplied, so with pairwise distinct ids every supplied factor
    has its entry. *)
Theorem C7_weight_normalization
  (cs : list Choice.t) (fs : list Factor.t) (ss : list Score.t) :
  let T := fold_left Qplus (map Factor.weight fs) 0 in
  let n := inject_Z (Z.of_nat (List.length fs)) in
  let self := init cs fs ss in
  let last_with k := find (fun f => (Factor.id f =? k)%Z) (rev fs) in
  (0 < T ->
   (forall k, get k (normalized_weights self) =
              option_map (fun f => Factor.weight f / T) (last_with k)) /\
   (NoDup (map Factor.id fs) ->
    forall f, In f fs ->
      get (Factor.id f) (normalized_weights self) =
      Some (Factor.weight f / T))) /\
  (T == 0 -> fs <> [] ->
   (forall k, get k (normalized_weights self) =
              option_map (fun _ => 1 / n) (last_with k)) /\
   (NoDup (map Factor.id fs) ->
    forall f, In f fs ->
      get (Factor.id f) (normalized_weights self) = Some (1 / n))) /\
  (fs = [] -> normalized_weights self = []).
Proof.
  intros T n self last_with.
  assert (Hlook : forall k,
             get k (normalized_weights self) =
             option_map (normalized_weight fs) (last_with k)).
  { intro k. unfold self. rewrite normalized_weights_lookup.
    change (factors (init cs fs ss)) with (dict_of Factor.id (fun f => f) fs).
    rewrite (dict_of_get_last Factor.id fs k). reflexivity. }
  assert (Hown : NoDup (map Factor.id fs) -> forall f, In f fs ->
             get (Factor.id f) (normalized_weights self) =
             Some (normalized_weight fs f)).
  { intros Hnd f Hin. unfold self. rewrite normalized_weights_lookup.
    rewrite (factors_of_distinct_ids cs fs ss f Hnd Hin). reflexivity. }
  assert (Hpos : 0 < T -> forall f, normalized_weight fs f = Factor.weight f / T).
  { intros HT f. unfold normalized_weight, total_weight, py_sum.
    change (fold_left Qplus (map Factor.weight fs) 0) with T.
    apply Qltb_lt in HT. rewrite HT. reflexivity. }
  assert (Hzero : T == 0 -> forall f, normalized_weight fs f = 1 / n).
  { intros HT f. unfold normalized_weight, total_weight, py_sum.
    change (fold_left Qplus (map Factor.weight fs) 0) with T.
    assert (E : Qltb 0 T = false).
    { apply Qltb_ge. rewrite HT. apply Qle_refl. }
    rewrite E. reflexivity. }
  split; [|split].
  - intro HT. split.
    + intro k. rewrite Hlook.
      destruct (last_with k) as [f|]; simpl; [|reflexivity].
      rewrite (Hpos HT). reflexivity.
    + intros Hnd f Hin. rewrite (Hown Hnd f Hin), (Hpos HT). reflexivity.
  - intros HT _. split.
    + intro k. rewrite Hlook.
      destruct (last_with k) as [f|]; simpl; [|reflexivity].
      rewrite (Hzero HT). reflexivity.
    + intros Hnd f Hin. rewrite (Hown Hnd f Hin), (Hzero HT). reflexivity.
  - intros ->. reflexivity.
Qed.

(* ------------------------------------------------------------------ *)
(** ** Score sampler *)

(** What [max(0, min(10, x))] does to a draw [x]. *)
Lemma clamp_cases (x : Q) :
  (x <= 0 -> py_max 0 (py_min 10 x) = 0) /\
  (10 <= x -> py_max 0 (py_min 10 x) = 10) /\
  (0 < x < 10 -> py_max 0 (py_min 10 x) = x).
Proof.
  unfold py_max, py_min. split; [|split].
  - intro Hx.
    assert (E : Qltb x 10 = true).
    { apply Qltb_lt. apply Qle_lt_trans with 0; [exact Hx | reflexivity]. }
    rewrite E.
    assert (E0 : Qltb 0 x = false) by (apply Qltb_ge; exact Hx).
    rewrite E0. reflexivity.
  - intro Hx.
    assert (E : Qltb x 10 = false) by (apply Qltb_ge; exact Hx).
    rewrite E. reflexivity.
  - intros [Hlo Hhi].
    apply Qltb_lt in Hhi. rewrite Hhi.
    apply Qltb_lt in Hlo. rewrite Hlo. reflexivity.
Qed.

Lemma sample_score_uncertain {G : Type} `{Generator G} (s : Score.t) (rng : G) :
  0 < Score.uncertainty s ->
  sample_score s rng =
  (py_max 0 (py_min 10
     (fst (normal (Score.score s) (Score.uncertainty s) rng))),
   snd (normal (Score.score s) (Score.uncertainty s) rng)).
Proof.
  intro Hu. unfold sample_score.
  apply Qltb_lt in Hu. rewrite Hu.
  destruct (normal (Score.score s) (Score.uncertainty s) rng) as [x g].
  reflexivity.
Qed.

(** A decision of one factor and one Score: a simulation iteration for
    the choice of the Score is one sampling step. *)
Lemma simulate_once_single {G : Type} `{Generator G}
  (cs : list Choice.t) (f : Factor.t) (s : Score.t) (rng : G) :
  0 < Factor.weight f ->
  Score.factor_id s = Factor.id f ->
  fst (simulate_once (init cs [f] [s]) (Score.choice_id s) rng) ==
    fst (sample_score s rng) /\
  snd (simulate_once (init cs [f] [s]) (Score.choice_id s) rng) =
    snd (sample_score s rng).
Proof.
  intros Hw Hid. unfold simulate_once.
  change (scores (init cs [f] [s])) with (organize_scores [s]).
  change (normalized_weights (init cs [f] [s]))
    with [(Factor.id f, normalized_weight [f] f)].
  assert (Hrow : get (Score.choice_id s) (organize_scores [s]) =
                 Some [(Score.factor_id s, s)]).
  { unfold organize_scores, organize_step. simpl.
    rewrite Z.eqb_refl. simpl. rewrite Z.eqb_refl. reflexivity. }
  rewrite Hrow. simpl fold_left. unfold simulate_step.
  simpl get. rewrite Hid, Z.eqb_refl.
  destruct (sample_score s rng) as [sampled rng'] eqn:Es. simpl.
  split; [|reflexivity].
  unfold normalized_weight, total_weight, py_sum. simpl fold_left.
  assert (E : Qltb 0 (0 + Factor.weight f) = true).
  { apply Qltb_lt. lra. }
  rewrite E. field. lra.
Qed.

(** C8. One sampling step.  With uncertainty 0 it returns the raw score
    unchanged and leaves the stream alone.  With positive uncertainty
    it takes one draw [normal(score, uncertainty)] from the stream and
    returns it clamped into [[0, 10]]: 0 for a draw of 0 or less, 10
    for a draw of 10 or more, the draw itself in between.  So the
    sampled value lies in [[0, 10]] whenever the raw score does.  The
    step is the one [simulate_once] takes: for a decision of one factor
    and one Score, an iteration returns the sampled value and the
    stream after the step. *)
Theorem C8_sample_score {G : Type} `{Generator G} (s : Score.t) (rng : G) :
  let draw := fst (normal (Score.score s) (Score.uncertainty s) rng) in
  (Score.uncertainty s == 0 -> sample_score s rng = (Score.score s, rng)) /\
  (0 < Score.uncertainty s ->
   snd (sample_score s rng) =
     snd (normal (Score.score s) (Score.uncertainty s) rng) /\
   (draw <= 0 -> fst (sample_score s rng) = 0) /\
   (10 <= draw -> fst (sample_score s rng) = 10) /\
   (0 < draw < 10 -> fst (sample_score s rng) = draw) /\
   0 <= fst (sample_score s rng) <= 10) /\
  (0 <= Score.score s <= 10 -> 0 <= fst (sample_score s rng) <= 10) /\
  (forall (cs : list Choice.t) (f : Factor.t),
     0 < Factor.weight f ->
     Score.factor_id s = Factor.id f ->
     fst (simulate_once (init cs [f] [s]) (Score.choice_id s) rng) ==
       fst (sample_score s rng) /\
     snd (simulate_once (init cs [f] [s]) (Score.choice_id s) rng) =
       snd (sample_score s rng)).
Proof.
  intro draw. split; [|split; [|split]].
  - intro Hu. unfold sample_score.
    assert (E : Qltb 0 (Score.uncertainty s) = false).
    { apply Qltb_ge. rewrite Hu. apply Qle_refl. }
    rewrite E. reflexivity.
  - intro Hu. rewrite (sample_score_uncertain s rng Hu). cbn [fst snd].
    fold draw. destruct (clamp_cases draw) as [Hlow [Hhigh Hmid]].
    split; [reflexivity|]. split; [exact Hlow|]. split; [exact Hhigh|].
    split; [exact Hmid | apply clamp_range].
  - intro Hs.
    destruct (Qltb 0 (Score.uncertainty s)) eqn:E.
    + apply Qltb_lt in E. rewrite (sample_score_uncertain s rng E). simpl.
      apply clamp_range.
    + unfold sample_score. rewrite E. simpl. exact Hs.
  - intros cs f Hw Hid. exact (simulate_once_single cs f s rng Hw Hid).
Qed.

(** C3, as the code has it.  A Score with negative uncertainty is
    sampled like a deterministic one: the raw score comes back
    unchanged and unclamped, and the stream is not advanced. *)
Theorem C3_negative_uncertainty_deterministic {G : Type} `{Generator G}
  (s : Score.t) (rng : G) :
  Score.uncertainty s < 0 -> sample_score s rng = (Score.score s, rng).
Proof.
  intro Hu. unfold sample_score.
  assert (E : Qltb 0 (Score.uncertainty s) = false).
  { apply Qltb_ge. apply Qlt_le_weak. exact Hu. }
  rewrite E. reflexivity.
Qed.

(* ------------------------------------------------------------------ *)
(** ** Scores outside the factor table *)

Lemma fold_left_ext_in {A B : Type} (f g : A -> B -> A) (l : list B) :
  (forall a x, In x l -> f a x = g a x) ->
  forall a, fold_left f l a = fold_left g l a.
Proof.
  induction l as [|x l IH]; intros Hfg a; simpl; [reflexivity|].
  rewrite (Hfg a x (or_introl eq_refl)).
  apply IH. intros a' y Hy. apply Hfg. right. exact Hy.
Qed.

Lemma keys_dict_of {A K V : Type} `{EqKey K}
  (key : A -> K) (g : A -> V) (xs : list A) (k : K) :
  In k (keys (dict_of key g xs)) -> In k (map key xs).
Proof.
  unfold dict_of.
  assert (Hgen : forall d : dict K V,
             In k (keys (fold_left (fun d x => set (key x) (g x) d) xs d)) ->
             In k (keys d) \/ In k (map key xs)).
  { induction xs as [|x xs IH]; intros d Hin; simpl in *.
    - left. exact Hin.
    - destruct (IH _ Hin) as [Hd|Hxs]; [|right; right; exact Hxs].
      destruct (key_dec (key x) k) as [->|Hne]; [right; left; reflexivity|].
      left. apply (get_Some_keys (V:=V)) in Hd. destruct Hd as [v Hv].
      rewrite get_set_ne in Hv by assumption.
      destruct (get k d) eqn:E; [|discriminate].
      destruct (in_dec key_dec k (keys d)) as [Hk|Hk]; [exact Hk|].
      apply get_None_keys in Hk. congruence. }
  intro Hin. destruct (Hgen [] Hin) as [[]|Hxs]. exact Hxs.
Qed.

Lemma score_at_organize_step (organized : dict Z (dict Z Score.t))
  (s : Score.t) (c f : Z) :
  score_at (organize_step organized s) c f =
  if ((Score.choice_id s =? c) && (Score.factor_id s =? f))%Z then Some s
  else score_at organized c f.
Proof.
  unfold organize_step, score_at, contains.
  destruct (get (Score.choice_id s) organized) as [row|] eqn:Erow.
  - rewrite Erow.
    destruct (Z.eqb_spec (Score.choice_id s) c) as [Hc|Hc]; simpl.
    + subst c. rewrite get_set_eq, Erow.
      destruct (Z.eqb_spec (Score.factor_id s) f) as [Hf|Hf].
      * subst f. apply get_set_eq.
      * apply get_set_ne. exact Hf.
    + rewrite get_set_ne by exact Hc. reflexivity.
  - rewrite get_set_eq.
    destruct (Z.eqb_spec (Score.choice_id s) c) as [Hc|Hc]; simpl.
    + subst c. rewrite get_set_eq, Erow.
      change [(Score.factor_id s, s)] with (set (Score.factor_id s) s []).
      destruct (Z.eqb_spec (Score.factor_id s) f) as [Hf|Hf].
      * subst f. apply get_set_eq.
      * rewrite get_set_ne by exact Hf. reflexivity.
    + rewrite !get_set_ne by exact Hc. reflexivity.
Qed.

Lemma score_at_fold (ss : list Score.t) (organized : dict Z (dict Z Score.t))
  (c f : Z) :
  score_at (fold_left organize_step ss organized) c f =
  fold_left (fun acc s =>
               if ((Score.choice_id s =? c) && (Score.factor_id s =? f))%Z
               then Some s else acc)
            ss (score_at organized c f).
Proof.
  revert organized. induction ss as [|s ss IH]; intro organized; simpl.
  - reflexivity.
  - rewrite IH, score_at_organize_step. reflexivity.
Qed.

(** A Score under another factor id does not change what the organized
    table holds under [f]. *)
Lemma score_at_foreign (l1 l2 : list Score.t) (s : Score.t) (c f : Z) :
  Score.factor_id s <> f ->
  score_at (organize_scores (l1 ++ s :: l2)) c f =
  score_at (organize_scores (l1 ++ l2)) c f.
Proof.
  intro Hne. unfold organize_scores.
  rewrite !score_at_fold, !fold_left_app. simpl.
  destruct (Z.eqb_spec (Score.factor_id s) f) as [Hf|_]; [contradiction|].
  rewrite andb_false_r. reflexivity.
Qed.

(** Both totals read the organized table only through [score_at]. *)
Lemma calculate_weighted_score_score_at (self : DecisionSimulator) (c : Z) :
  calculate_weighted_score self c =
  fold_left (fun total (item : Z * Q) =>
               match score_at (scores self) c (fst item) with
               | Some s => total + Score.score s * snd item
               | None => total
               end)
            (normalized_weights self) 0.
Proof.
  unfold calculate_weighted_score, score_at.
  destruct (get c (scores self)) as [row|].
  - apply fold_left_ext_in. intros a [k w] _. reflexivity.
  - generalize (normalized_weights self) as table.
    induction table as [|[k w] table IH]; simpl; [reflexivity | exact IH].
Qed.

Lemma simulate_once_score_at {G : Type} `{Generator G}
  (self : DecisionSimulator) (c : Z) (rng : G) :
  simulate_once self c rng =
  fold_left (fun (acc : Q * G) (item : Z * Q) =>
               match score_at (scores self) c (fst item) with
               | Some s =>
                   (fst acc + fst (sample_score s (snd acc)) * snd item,
                    snd (sample_score s (snd acc)))
               | None => acc
               end)
            (normalized_weights self) (0, rng).
Proof.
  unfold simulate_once, score_at.
  destruct (get c (scores self)) as [row|].
  - apply fold_left_ext_in. intros [total g] [k w] _. simpl.
    destruct (get k row) as [s|]; [|reflexivity].
    destruct (sample_score s g). reflexivity.
  - generalize (normalized_weights self) as table.
    induction table as [|[k w] table IH]; simpl; [reflexivity | exact IH].
Qed.

(** C10. A Score whose factor id is not among the supplied factors
    contributes nothing: with or without it, every choice has the same
    deterministic total and the same sampled total, and the sampled
    total consumes the same part of the random stream. *)
Theorem C10_foreign_score_ignored {G : Type} `{Generator G}
  (cs : list Choice.t) (fs : list Factor.t) (l1 l2 : list Score.t)
  (s : Score.t) (c : Z) (rng : G) :
  ~ In (Score.factor_id s) (map Factor.id fs) ->
  calculate_weighted_score (init cs fs (l1 ++ s :: l2)) c =
  calculate_weighted_score (init cs fs (l1 ++ l2)) c /\
  simulate_once (init cs fs (l1 ++ s :: l2)) c rng =
  simulate_once (init cs fs (l1 ++ l2)) c rng.
Proof.
  intro Hforeign.
  assert (Hat : forall item : Z * Q,
             In item (normalized_weights (init cs fs (l1 ++ l2))) ->
             score_at (organize_scores (l1 ++ s :: l2)) c (fst item) =
             score_at (organize_scores (l1 ++ l2)) c (fst item)).
  { intros item Hin. apply score_at_foreign. intro Heq.
    apply Hforeign. rewrite Heq.
    apply (keys_dict_of Factor.id (normalized_weight fs)).
    apply in_map. exact Hin. }
  split.
  - rewrite !calculate_weighted_score_score_at.
    apply fold_left_ext_in. intros a item Hin. simpl.
    rewrite (Hat item Hin). reflexivity.
  - rewrite !simulate_once_score_at.
    apply fold_left_ext_in. intros a item Hin. simpl.
    rewrite (Hat item Hin). reflexivity.
Qed.

(* ------------------------------------------------------------------ *)
(** ** The rounds of [run_simulation] *)

Lemma dict_of_keys_in {A K V : Type} `{EqKey K}
  (key : A -> K) (g : A -> V) (xs : list A) (k : K) :
  In k (map key xs) -> In k (keys (dict_of key g xs)).
Proof.
  unfold dict_of.
  assert (Hgen : forall d : dict K V,
             In k (keys d) \/ In k (map key xs) ->
             In k (keys (fold_left (fun d x => set (key x) (g x) d) xs d))).
  { induction xs as [|x xs IH]; intros d Hin; simpl in *.
    - destruct Hin as [Hd|[]]. exact Hd.
    - apply IH.
      destruct (key_dec (key x) k) as [Heq|Hne].
      + left. subst k.
        destruct (in_dec key_dec (key x) (keys (set (key x) (g x) d)))
          as [Hk|Hk]; [exact Hk|].
        apply get_None_keys in Hk. rewrite get_set_eq in Hk. discriminate.
      + destruct Hin as [Hd|[Heq|Hxs]]; [|contradiction|right; exact Hxs].
        left. apply (get_Some_keys (V:=V)) in Hd. destruct Hd as [v Hv].
        destruct (in_dec key_dec k (keys (set (key x) (g x) d)))
          as [Hk|Hk]; [exact Hk|].
        apply get_None_keys in Hk.
        rewrite get_set_ne in Hk by assumption. congruence. }
  intro Hin. apply Hgen. right. exact Hin.
Qed.

Lemma set_const_values {K V : Type} `{EqKey K} (c : V) (k : K) (d : dict K V) :
  Forall (fun kv => snd kv = c) d -> Forall (fun kv => snd kv = c) (set k c d).
Proof.
  induction d as [|[k' v'] d IH]; intro Hall; simpl.
  - constructor; [reflexivity | constructor].
  - apply Forall_cons_iff in Hall. destruct Hall as [Hhd Htl].
    destruct (keqb k k').
    + constructor; [reflexivity | exact Htl].
    + constructor; [exact Hhd | exact (IH Htl)].
Qed.

Lemma dict_of_const_values {A K V : Type} `{EqKey K}
  (key : A -> K) (c : V) (xs : list A) :
  Forall (fun kv => snd kv = c) (dict_of key (fun _ => c) xs).
Proof.
  unfold dict_of.
  assert (Hgen : forall d : dict K V,
             Forall (fun kv => snd kv = c) d ->
             Forall (fun kv => snd kv = c)
               (fold_left (fun d x => set (key x) c d) xs d)).
  { induction xs as [|x xs IH]; intros d Hd; simpl; [exact Hd|].
    apply IH. apply set_const_values. exact Hd. }
  apply Hgen. constructor.
Qed.

Lemma sum_counts_zero (d : dict Z Z) :
  Forall (fun kv => snd kv = 0%Z) d -> sum_counts d = 0%Z.
Proof.
  unfold sum_counts, values.
  induction 1 as [|[k v] d Hv _ IH]; simpl in *; [reflexivity|].
  rewrite Hv, IH. reflexivity.
Qed.

Lemma sum_counts_set (k c v : Z) (d : dict Z Z) :
  get k d = Some c ->
  sum_counts (set k v d) = (sum_counts d - c + v)%Z.
Proof.
  unfold sum_counts, values.
  induction d as [|[k' v'] d IH]; simpl; [discriminate|].
  destruct (Z.eqb k k') eqn:E; simpl.
  - intros [= ->]. lia.
  - intro Hg. rewrite (IH Hg). lia.
Qed.

Lemma max_from_in {K : Type} (d : dict K Q) (best : K) (best_v : Q) :
  max_from best best_v d = best \/ In (max_from best best_v d) (keys d).
Proof.
  revert best best_v. induction d as [|[k v] d IH]; intros best best_v; simpl.
  - left. reflexivity.
  - destruct (Qltb best_v v).
    + destruct (IH k v) as [->|Hin]; [right; left; reflexivity|].
      right. right. exact Hin.
    + destruct (IH best best_v) as [->|Hin]; [left; reflexivity|].
      right. right. exact Hin.
Qed.

Lemma py_max_key_in {K : Type} (d : dict K Q) (w : K) :
  py_max_key d = Ok w -> In w (keys d).
Proof.
  destruct d as [|[k v] d]; simpl; [discriminate|].
  intros [= <-]. destruct (max_from_in d k v) as [->|Hin].
  - left. reflexivity.
  - right. exact Hin.
Qed.

Lemma getitem_present {K V : Type} `{EqKey K} (k : K) (d : dict K V) :
  In k (keys d) -> exists v, getitem k d = Ok v /\ get k d = Some v.
Proof.
  intro Hin. destruct (get_Some_keys k d Hin) as [v Hv].
  exists v. unfold getitem. rewrite Hv. split; reflexivity.
Qed.

Lemma for_each_cons {A B : Type} (f : A -> B -> result A) (x : B)
  (l : list B) (acc : A) :
  for_each f (x :: l) acc =
  match f acc x with
  | Ok acc' => for_each f l acc'
  | Raise e => Raise e
  end.
Proof. reflexivity. Qed.

Lemma keys_set_iff {K V : Type} `{EqKey K} (k k0 : K) (v : V) (d : dict K V) :
  In k (keys (set k0 v d)) <-> k = k0 \/ In k (keys d).
Proof.
  destruct (get k0 d) as [v0|] eqn:E.
  - rewrite (keys_set_present k0 v v0 d E). split.
    + intro Hin. right. exact Hin.
    + intros [->|Hin]; [|exact Hin].
      destruct (in_dec key_dec k0 (keys d)) as [Hk|Hk]; [exact Hk|].
      apply get_None_keys in Hk. congruence.
  - rewrite (keys_set_absent k0 v d E), in_app_iff. simpl.
    split.
    + intros [Hin|[->|[]]]; [right; exact Hin | left; reflexivity].
    + intros [->|Hin]; [right; left; reflexivity | left; exact Hin].
Qed.

Section Rounds.
Context {G : Type} `{Generator G}.
Variable self : DecisionSimulator.

Lemma round_step_eq (rs : dict Z Q) (ar : dict Z (list Q)) (g : G) (k : Z) :
  round_step self (rs, ar, g) k =
  match getitem k ar with
  | Ok series =>
      Ok (set k (fst (simulate_once self k g)) rs,
          set k (series ++ [fst (simulate_once self k g)]) ar,
          snd (simulate_once self k g))
  | Raise e => Raise e
  end.
Proof.
  unfold round_step.
  destruct (simulate_once self k g) as [total g1]. simpl.
  destruct (getitem k ar) as [series|e]; simpl; [|reflexivity].
  unfold getitem. rewrite get_set_eq. reflexivity.
Qed.

(** One pass over the choices succeeds, scores exactly the choices
    passed over, keeps the keys of [all_results] and only lengthens
    its series. *)
Lemma round_loop (l : list Z) :
  forall (rs : dict Z Q) (ar : dict Z (list Q)) (g : G),
    incl l (keys ar) ->
    exists rs' ar' g',
      for_each (round_step self) l (rs, ar, g) = Ok (rs', ar', g') /\
      keys ar' = keys ar /\
      (forall k, In k (keys rs') <-> In k (keys rs) \/ In k l) /\
      (forall k v', get k ar' = Some v' ->
         exists v, get k ar = Some v /\ (v <> [] \/ In k l -> v' <> [])).
Proof.
  induction l as [|k0 l IH]; intros rs ar g Hincl.
  - exists rs, ar, g. simpl. repeat split.
    + intro Hin. left. exact Hin.
    + intros [Hin|[]]. exact Hin.
    + intros k v' Hg. exists v'. split; [exact Hg|].
      intros [Hne|[]]. exact Hne.
  - rewrite for_each_cons, round_step_eq.
    destruct (simulate_once self k0 g) as [total g1].
    destruct (getitem_present k0 ar) as [series [Hitem Hget]].
    { apply Hincl. left. reflexivity. }
    rewrite Hitem. cbn [fst snd].
    pose proof (keys_set_present k0 (series ++ [total]) series ar Hget)
      as Hkeys.
    destruct (IH (set k0 total rs) (set k0 (series ++ [total]) ar) g1)
      as [rs' [ar' [g' [Hrun [Hk [Hrs Hgrow]]]]]].
    { rewrite Hkeys. intros k Hin. apply Hincl. right. exact Hin. }
    exists rs', ar', g'. rewrite Hrun.
    split; [reflexivity|]. split; [congruence|]. split.
    + intro k. rewrite Hrs, keys_set_iff. simpl.
      split.
      * intros [[->|Hin]|Hin]; auto.
      * intros [Hin|[->|Hin]]; auto.
    + intros k v' Hg. destruct (Hgrow k v' Hg) as [v1 [Hg1 Hne1]].
      destruct (Z.eq_dec k0 k) as [->|Hne].
      * rewrite get_set_eq in Hg1. injection Hg1 as <-.
        exists series. split; [exact Hget|].
        intros _. apply Hne1. left.
        intro Happ. apply app_eq_nil in Happ. destruct Happ; discriminate.
      * rewrite get_set_ne in Hg1 by exact Hne.
        exists v1. split; [exact Hg1|].
        intros [Hv|[Heq|Hin]]; [apply Hne1; left; exact Hv
                               | contradiction
                               | apply Hne1; right; exact Hin].
Qed.

(** The winner of a round is one of the scored choices, so its counter
    exists and goes up by one; without choices nothing is counted. *)
Lemma count_winner_sum (rs : dict Z Q) (wc : dict Z Z) :
  incl (keys rs) (keys wc) ->
  exists wc',
    count_winner rs wc = Ok wc' /\
    keys wc' = keys wc /\
    sum_counts wc' =
    (sum_counts wc + match rs with [] => 0 | _ :: _ => 1 end)%Z.
Proof.
  intro Hincl. destruct rs as [|[k v] rs].
  - exists wc. simpl. repeat split. lia.
  - unfold count_winner.
    destruct (py_max_key ((k, v) :: rs)) as [w|e] eqn:Emax;
      [|discriminate Emax].
    simpl bind.
    destruct (getitem_present w wc) as [c [Hitem Hget]].
    { apply Hincl. apply py_max_key_in. exact Emax. }
    rewrite Hitem. simpl bind.
    exists (set w (c + 1)%Z wc). split; [reflexivity|]. split.
    + exact (keys_set_present w _ c wc Hget).
    + rewrite (sum_counts_set w c _ wc Hget). lia.
Qed.

Lemma run_round_ok (ar : dict Z (list Q)) (wc : dict Z Z) (g : G) :
  incl (keys (choices self)) (keys ar) ->
  incl (keys (choices self)) (keys wc) ->
  exists ar' wc' g',
    run_round self (ar, wc, g) = Ok (ar', wc', g') /\
    keys ar' = keys ar /\
    keys wc' = keys wc /\
    sum_counts wc' =
    (sum_counts wc + match choices self with [] => 0 | _ :: _ => 1 end)%Z /\
    (forall k v', get k ar' = Some v' ->
       exists v, get k ar = Some v /\
                 (v <> [] \/ In k (keys (choices self)) -> v' <> [])).
Proof.
  intros Har Hwc. unfold run_round.
  destruct (round_loop (keys (choices self)) [] ar g Har)
    as [rs' [ar' [g' [Hrun [Hk [Hrs Hgrow]]]]]].
  unfold dict in *. rewrite Hrun. simpl bind.
  destruct (count_winner_sum rs' wc) as [wc' [Hcount [Hkw Hsum]]].
  { intros k Hin. apply Hwc. apply Hrs in Hin.
    destruct Hin as [[]|Hin]. exact Hin. }
  rewrite Hcount. simpl bind.
  exists ar', wc', g'. repeat split; try assumption.
  rewrite Hsum. f_equal.
  destruct (choices self) as [|[c0 ch] rest] eqn:Ech.
  - destruct rs' as [|[k v] rs']; [reflexivity|].
    exfalso. destruct (proj1 (Hrs k) (or_introl eq_refl)) as [[]|[]].
  - destruct rs' as [|[k v] rs']; [|reflexivity].
    exfalso. apply (proj2 (Hrs c0)). right. left. reflexivity.
Qed.

Lemma repeat_rounds_S (n : nat) (st : dict Z (list Q) * dict Z Z * G) :
  repeat_rounds self (S n) st =
  match run_round self st with
  | Ok st' => repeat_rounds self n st'
  | Raise e => Raise e
  end.
Proof. reflexivity. Qed.

Lemma repeat_rounds_ok (n : nat) :
  forall (ar : dict Z (list Q)) (wc : dict Z Z) (g : G),
    incl (keys (choices self)) (keys ar) ->
    incl (keys (choices self)) (keys wc) ->
    exists ar' wc' g',
      repeat_rounds self n (ar, wc, g) = Ok (ar', wc', g') /\
      keys ar' = keys ar /\
      keys wc' = keys wc /\
      sum_counts wc' =
      (sum_counts wc +
       match choices self with [] => 0 | _ :: _ => Z.of_nat n end)%Z /\
      (forall k v', get k ar' = Some v' ->
         exists v, get k ar = Some v /\
                   (v <> [] \/ (n <> O /\ In k (keys (choices self))) ->
                    v' <> [])).
Proof.
  induction n as [|n IH]; intros ar wc g Har Hwc.
  - exists ar, wc, g. simpl. repeat split.
    + destruct (choices self); lia.
    + intros k v' Hg. exists v'. split; [exact Hg|].
      intros [Hne|[Hn _]]; [exact Hne | contradiction].
  - rewrite repeat_rounds_S.
    destruct (run_round_ok ar wc g Har Hwc)
      as [ar1 [wc1 [g1 [Hrun [Hk1 [Hkw1 [Hsum1 Hgrow1]]]]]]].
    rewrite Hrun.
    destruct (IH ar1 wc1 g1) as [ar' [wc' [g' [Hrep [Hk [Hkw [Hsum Hgrow]]]]]]].
    { rewrite Hk1. exact Har. }
    { rewrite Hkw1. exact Hwc. }
    exists ar', wc', g'. rewrite Hrep.
    split; [reflexivity|]. split; [congruence|]. split; [congruence|].
    split.
    + rewrite Hsum, Hsum1. destruct (choices self); lia.
    + intros k v' Hg.
      destruct (Hgrow k v' Hg) as [v1 [Hg1 Hne1]].
      destruct (Hgrow1 k v1 Hg1) as [v [Hg0 Hne0]].
      exists v. split; [exact Hg0|].
      intro Hcase. apply Hne1. left. apply Hne0.
      destruct Hcase as [Hv|[_ Hin]]; [left; exact Hv | right; exact Hin].
Qed.

(** The rounds always run to completion.  The counters then sum to the
    number of rounds played when there is a choice, and stay at 0 when
    there is none; after at least one round no series is empty, and
    without a round every series is still empty. *)
Lemma simulate_rounds_ok (num_runs : Z) (rng : G) :
  exists ar wc g',
    simulate_rounds self num_runs rng = Ok (ar, wc, g') /\
    (forall k, In k (keys ar) <-> In k (keys (choices self))) /\
    (forall k, In k (keys wc) <-> In k (keys (choices self))) /\
    sum_counts wc =
    match choices self with
    | [] => 0%Z
    | _ :: _ => Z.of_nat (Z.to_nat num_runs)
    end /\
    ((1 <= num_runs)%Z -> forall k v, get k ar = Some v -> v <> []) /\
    ((num_runs <= 0)%Z -> Forall (fun kv => snd kv = []) ar).
Proof.
  unfold simulate_rounds.
  set (ks := keys (choices self)).
  set (ar0 := dict_of (fun cid : Z => cid) (fun _ => @nil Q) ks).
  set (wc0 := dict_of (fun cid : Z => cid) (fun _ => 0%Z) ks).
  assert (Har0 : forall k, In k (keys ar0) <-> In k ks).
  { intro k. split; intro Hin.
    - apply keys_dict_of in Hin. rewrite map_id in Hin. exact Hin.
    - apply dict_of_keys_in. rewrite map_id. exact Hin. }
  assert (Hwc0 : forall k, In k (keys wc0) <-> In k ks).
  { intro k. split; intro Hin.
    - apply keys_dict_of in Hin. rewrite map_id in Hin. exact Hin.
    - apply dict_of_keys_in. rewrite map_id. exact Hin. }
  destruct (repeat_rounds_ok (Z.to_nat num_runs) ar0 wc0 rng)
    as [ar [wc [g' [Hrep [Hk [Hkw [Hsum Hgrow]]]]]]].
  { intros k Hin. apply Har0. exact Hin. }
  { intros k Hin. apply Hwc0. exact Hin. }
  exists ar, wc, g'. split; [exact Hrep|].
  split; [intro k; rewrite Hk; apply Har0|].
  split; [intro k; rewrite Hkw; apply Hwc0|].
  split; [|split].
  - rewrite Hsum, (sum_counts_zero wc0).
    + destruct (choices self); reflexivity.
    + apply dict_of_const_values.
  - intros Hn k v Hg.
    destruct (Hgrow k v Hg) as [v0 [Hg0 Hne]].
    apply Hne. right. split; [lia|].
    apply Har0.
    destruct (in_dec Z.eq_dec k (keys ar0)) as [Hin|Hnin]; [exact Hin|].
    apply get_None_keys in Hnin. congruence.
  - intro Hn.
    replace (Z.to_nat num_runs) with O in Hrep by lia.
    simpl in Hrep. injection Hrep as <- _ _.
    apply dict_of_const_values.
Qed.
End Rounds.

Lemma set_NoDup {K V : Type} `{EqKey K} (k : K) (v : V) (d : dict K V) :
  NoDup (keys d) -> NoDup (keys (set k v d)).
Proof.
  intro Hnd. destruct (get k d) as [v0|] eqn:E.
  - rewrite (keys_set_present k v v0 d E). exact Hnd.
  - rewrite (keys_set_absent k v d E).
    apply NoDup_app; [exact Hnd | constructor; [intros [] | constructor] |].
    intros a Ha [<-|[]]. apply get_None_keys in E. contradiction.
Qed.

Lemma dict_of_NoDup {A K V : Type} `{EqKey K}
  (key : A -> K) (g : A -> V) (xs : list A) :
  NoDup (keys (dict_of key g xs)).
Proof.
  unfold dict_of.
  assert (Hgen : forall d : dict K V,
             NoDup (keys d) ->
             NoDup (keys (fold_left (fun d x => set (key x) (g x) d) xs d))).
  { induction xs as [|x xs IH]; intros d Hd; simpl; [exact Hd|].
    apply IH. apply set_NoDup. exact Hd. }
  apply Hgen. constructor.
Qed.

Lemma NoDup_get {K V : Type} `{EqKey K} (k : K) (v : V) (d : dict K V) :
  NoDup (keys d) -> In (k, v) d -> get k d = Some v.
Proof.
  induction d as [|[k' v'] d IH]; simpl; [intros _ []|].
  intros Hnd [Heq|Hin].
  - injection Heq as -> ->. rewrite keqb_refl. reflexivity.
  - apply NoDup_cons_iff in Hnd. destruct Hnd as [Hnotin Hnd].
    destruct (keqb k k') eqn:E.
    + apply keqb_eq in E. subst k'. exfalso. apply Hnotin.
      change k with (fst (k, v)). apply in_map. exact Hin.
    + exact (IH Hnd Hin).
Qed.

Lemma for_each_total {A B : Type} (f : A -> B -> result A) (l : list B) :
  (forall acc x, In x l -> exists acc', f acc x = Ok acc') ->
  forall acc, exists r, for_each f l acc = Ok r.
Proof.
  induction l as [|x l IH]; intros Hf acc.
  - exists acc. reflexivity.
  - rewrite for_each_cons.
    destruct (Hf acc x (or_introl eq_refl)) as [acc' Hacc]. rewrite Hacc.
    apply IH. intros a y Hy. apply Hf. right. exact Hy.
Qed.

Lemma py_div_nonzero (a : Q) (n : Z) :
  (1 <= n)%Z -> py_div a (inject_Z n) = Ok (a / inject_Z n).
Proof.
  intro Hn. unfold py_div.
  destruct (Qeq_bool (inject_Z n) 0) eqn:E; [|reflexivity].
  apply Qeq_bool_eq in E. unfold Qeq in E. simpl in E. lia.
Qed.

Section Report.
Context {G : Type} `{Generator G}.
Variable self : DecisionSimulator.

Lemma simulate_rounds_NoDup (num_runs : Z) (rng : G)
  (ar : dict Z (list Q)) (wc : dict Z Z) (g' : G) :
  simulate_rounds self num_runs rng = Ok (ar, wc, g') ->
  NoDup (keys ar) /\ NoDup (keys wc).
Proof.
  unfold simulate_rounds.
  set (ks := keys (choices self)).
  set (ar0 := dict_of (fun cid : Z => cid) (fun _ => @nil Q) ks).
  set (wc0 := dict_of (fun cid : Z => cid) (fun _ => 0%Z) ks).
  intro Hrun.
  destruct (repeat_rounds_ok self (Z.to_nat num_runs) ar0 wc0 rng)
    as [ar1 [wc1 [g1 [Hrep [Hk [Hkw _]]]]]].
  - intros k Hin. apply dict_of_keys_in. rewrite map_id. exact Hin.
  - intros k Hin. apply dict_of_keys_in. rewrite map_id. exact Hin.
  - rewrite Hrep in Hrun. injection Hrun as <- <- _.
    rewrite Hk, Hkw. split; apply dict_of_NoDup.
Qed.

(** Without choices the report is built from two empty tables. *)
Lemma run_simulation_no_choices (num_runs : Z) (rng : G) :
  choices self = [] ->
  run_simulation self num_runs rng =
  Ok (mkReport (Z.min num_runs MAX_SIMULATION_RUNS) [] [] []).
Proof.
  intro Hempty. unfold run_simulation.
  destruct (simulate_rounds_ok self (Z.min num_runs MAX_SIMULATION_RUNS) rng)
    as [ar [wc [g' [Hrun [Har [Hwc _]]]]]].
  rewrite Hrun. simpl bind.
  rewrite Hempty in Har, Hwc.
  destruct ar as [|[k v] ar];
    [|exfalso; apply (proj1 (Har k)); left; reflexivity].
  destruct wc as [|[k c] wc];
    [|exfalso; apply (proj1 (Hwc k)); left; reflexivity].
  reflexivity.
Qed.

(** With a choice and no round, the first series is empty and its
    minimum does not exist. *)
Lemma run_simulation_no_rounds (num_runs : Z) (rng : G) :
  choices self <> [] -> (num_runs <= 0)%Z ->
  run_simulation self num_runs rng = Raise ValueError.
Proof.
  intros Hchoices Hn. unfold run_simulation.
  assert (Hcap : (Z.min num_runs MAX_SIMULATION_RUNS <= 0)%Z)
    by (unfold MAX_SIMULATION_RUNS; lia).
  destruct (simulate_rounds_ok self (Z.min num_runs MAX_SIMULATION_RUNS) rng)
    as [ar [wc [g' [Hrun [Har [_ [_ [_ Hnil]]]]]]]].
  rewrite Hrun. simpl bind.
  specialize (Hnil Hcap).
  destruct ar as [|[k v] ar].
  - exfalso. destruct (choices self) as [|[c0 ch] rest]; [contradiction|].
    apply (proj2 (Har c0)). left. reflexivity.
  - apply Forall_cons_iff in Hnil. destruct Hnil as [Hv _].
    simpl in Hv. subst v.
    unfold build_report. rewrite for_each_cons.
    unfold results_step at 1, choice_result.
    destruct (getitem_present k (choices self)) as [c [Hc _]].
    { apply Har. left. reflexivity. }
    rewrite Hc. reflexivity.
Qed.
End Report.

Lemma in_keys {K V : Type} (k : K) (v : V) (d : dict K V) :
  In (k, v) d -> In k (keys d).
Proof.
  intro Hin. change k with (fst (k, v)). apply in_map. exact Hin.
Qed.

Section Completion.
Context {G : Type} `{Generator G}.
Variable self : DecisionSimulator.

Lemma choice_result_ok (wc : dict Z Z) (num_runs k : Z) (v : list Q) :
  In k (keys (choices self)) -> In k (keys wc) -> v <> [] ->
  (1 <= num_runs)%Z ->
  exists r, choice_result self wc num_runs k v = Ok r.
Proof.
  intros Hk Hkw Hv Hn. unfold choice_result.
  destruct (getitem_present k (choices self) Hk) as [c [Hc _]].
  destruct (getitem_present k wc Hkw) as [count [Hcount _]].
  rewrite Hc. simpl bind.
  destruct v as [|x v]; [contradiction|]. simpl bind.
  rewrite Hcount. simpl bind.
  rewrite (py_div_nonzero _ num_runs Hn). simpl bind.
  eexists. reflexivity.
Qed.

(** With at least one round requested the call returns a report. *)
Lemma run_simulation_total (num_runs : Z) (rng : G) :
  (1 <= num_runs)%Z ->
  exists report, run_simulation self num_runs rng = Ok report.
Proof.
  intro Hn. unfold run_simulation.
  assert (Hcap : (1 <= Z.min num_runs MAX_SIMULATION_RUNS)%Z)
    by (unfold MAX_SIMULATION_RUNS; lia).
  destruct (simulate_rounds_ok self (Z.min num_runs MAX_SIMULATION_RUNS) rng)
    as [ar [wc [g' [Hrun [Har [Hwc [_ [Hfull _]]]]]]]].
  destruct (simulate_rounds_NoDup self _ rng ar wc g' Hrun) as [Hnd _].
  rewrite Hrun. simpl bind. unfold build_report.
  destruct (for_each_total
              (results_step self wc (Z.min num_runs MAX_SIMULATION_RUNS))
              ar) with (acc := @nil (Z * ChoiceResult.t))
    as [results Hresults].
  { intros acc [k v] Hin. unfold results_step.
    destruct (choice_result_ok wc (Z.min num_runs MAX_SIMULATION_RUNS) k v)
      as [r Hr].
    - apply Har. exact (in_keys k v ar Hin).
    - apply Hwc. apply Har. exact (in_keys k v ar Hin).
    - apply (Hfull Hcap k). apply NoDup_get; assumption.
    - exact Hcap.
    - rewrite Hr. simpl bind. eexists. reflexivity. }
  unfold dict in *. rewrite Hresults. simpl bind.
  destruct (for_each_total
              (win_rate_step self (Z.min num_runs MAX_SIMULATION_RUNS))
              wc) with (acc := @nil (string * Q))
    as [rates Hrates].
  { intros acc [k c] Hin. unfold win_rate_step.
    destruct (getitem_present k (choices self)) as [ch [Hch _]].
    - apply Hwc. exact (in_keys k c wc Hin).
    - rewrite Hch. simpl bind.
      rewrite (py_div_nonzero _ _ Hcap). simpl bind.
      eexists. reflexivity. }
  unfold dict in *. rewrite Hrates. simpl bind. eexists. reflexivity.
Qed.

(** What a returned report is made of. *)
Lemma run_simulation_report (num_runs : Z) (rng : G)
  (report : SimulationReport) :
  run_simulation self num_runs rng = Ok report ->
  num_simulations report = Z.min num_runs MAX_SIMULATION_RUNS /\
  rankings report =
  sorted_reverse ChoiceResult.mean (values (choice_results report)).
Proof.
  unfold run_simulation.
  destruct (simulate_rounds self (Z.min num_runs MAX_SIMULATION_RUNS) rng)
    as [[[ar wc] g']|e]; simpl bind; [|discriminate].
  unfold build_report.
  destruct (for_each (results_step self wc
                        (Z.min num_runs MAX_SIMULATION_RUNS)) ar [])
    as [results|e]; simpl bind; [|discriminate].
  destruct (for_each (win_rate_step self
                        (Z.min num_runs MAX_SIMULATION_RUNS)) wc [])
    as [rates|e]; simpl bind; [|discriminate].
  intros [= <-]. split; reflexivity.
Qed.
End Completion.

(* ------------------------------------------------------------------ *)
(** ** Validation and the win counters *)

Lemma choices_init_nonempty (cs : list Choice.t) (fs : list Factor.t)
  (ss : list Score.t) :
  cs <> [] -> choices (init cs fs ss) <> [].
Proof.
  intros Hcs Hnil. destruct cs as [|c cs]; [contradiction|].
  assert (Hin : In (Choice.id c) (keys (choices (init (c :: cs) fs ss)))).
  { simpl choices. apply dict_of_keys_in. left. reflexivity. }
  rewrite Hnil in Hin. exact Hin.
Qed.

(** C1, as the code has it.  [run_simulation] validates nothing.
    An empty choice list yields a report: the capped run count and three
    empty tables.  A non-empty choice list with [num_runs <= 0] raises
    [ValueError], from the minimum of an empty sample series. *)
Theorem C1_run_simulation_unvalidated {G : Type} `{Generator G}
  (cs : list Choice.t) (fs : list Factor.t) (ss : list Score.t)
  (num_runs : Z) (rng : G) :
  (cs = [] ->
   run_simulation (init cs fs ss) num_runs rng =
   Ok (mkReport (Z.min num_runs MAX_SIMULATION_RUNS) [] [] [])) /\
  (cs <> [] -> (num_runs <= 0)%Z ->
   run_simulation (init cs fs ss) num_runs rng = Raise ValueError).
Proof.
  split.
  - intros ->. apply run_simulation_no_choices. reflexivity.
  - intros Hcs Hn. apply run_simulation_no_rounds; [|exact Hn].
    apply choices_init_nonempty. exact Hcs.
Qed.

(** C9, as the code has it.  For any completed [run_simulation] call
    over at least one choice, the rounds ran to completion and the win
    counters sum to the capped run count, which is the reported
    [num_simulations]. *)
Theorem C9_win_counts_sum {G : Type} `{Generator G}
  (self : DecisionSimulator) (num_runs : Z) (rng : G)
  (report : SimulationReport) :
  run_simulation self num_runs rng = Ok report ->
  choices self <> [] ->
  exists all_results win_counts rng',
    simulate_rounds self (Z.min num_runs MAX_SIMULATION_RUNS) rng =
    Ok (all_results, win_counts, rng') /\
    sum_counts win_counts = Z.min num_runs MAX_SIMULATION_RUNS /\
    num_simulations report = Z.min num_runs MAX_SIMULATION_RUNS.
Proof.
  intros Hrun Hchoices.
  destruct (Z_le_gt_dec num_runs 0) as [Hle|Hgt].
  - rewrite (run_simulation_no_rounds self num_runs rng Hchoices Hle) in Hrun.
    discriminate.
  - destruct (simulate_rounds_ok self (Z.min num_runs MAX_SIMULATION_RUNS) rng)
      as [ar [wc [g' [Hrounds [_ [_ [Hsum _]]]]]]].
    exists ar, wc, g'. split; [exact Hrounds|]. split.
    + rewrite Hsum. destruct (choices self); [contradiction|].
      unfold MAX_SIMULATION_RUNS. lia.
    + apply (run_simulation_report self num_runs rng report Hrun).
Qed.

(* ------------------------------------------------------------------ *)
(** ** Ties *)




(** [sorted(..., reverse=True)] is descending and stable. *)
Section SortedReverse.
Context {A : Type} (key : A -> Q).





End SortedReverse.

Lemma dict_of_keys_NoDup {A K V : Type} `{EqKey K}
  (key : A -> K) (g : A -> V) (xs : list A) :
  NoDup (map key xs) -> keys (dict_of key g xs) = map key xs.
Proof.
  unfold dict_of.
  assert (Hgen : forall d : dict K V,
             NoDup (map key xs) ->
             (forall k, In k (map key xs) -> ~ In k (keys d)) ->
             keys (fold_left (fun d x => set (key x) (g x) d) xs d) =
             keys d ++ map key xs).
  { induction xs as [|x xs IH]; intros d Hnd Hfresh; simpl.
    - rewrite app_nil_r. reflexivity.
    - simpl in Hnd. apply NoDup_cons_iff in Hnd. destruct Hnd as [Hx Hnd].
      assert (Habs : get (key x) d = None).
      { apply get_None_keys. apply Hfresh. left. reflexivity. }
      rewrite IH; [|exact Hnd|].
      + rewrite (keys_set_absent _ _ d Habs), <- app_assoc. reflexivity.
      + intros k Hin Hk. apply keys_set_iff in Hk.
        destruct Hk as [->|Hk]; [contradiction|].
        apply (Hfresh k); [right; exact Hin | exact Hk]. }
  intro Hnd. rewrite Hgen; [reflexivity | exact Hnd | intros k _ []].
Qed.



Section RankingOrder.
Context {G : Type} `{Generator G}.
Variable self : DecisionSimulator.
Hypothesis choices_distinct : NoDup (keys (choices self)).

Lemma simulate_rounds_keys (num_runs : Z) (rng : G)
  (ar : dict Z (list Q)) (wc : dict Z Z) (g' : G) :
  simulate_rounds self num_runs rng = Ok (ar, wc, g') ->
  keys ar = keys (choices self).
Proof.
  unfold simulate_rounds.
  set (ks := keys (choices self)).
  set (ar0 := dict_of (fun cid : Z => cid) (fun _ => @nil Q) ks).
  set (wc0 := dict_of (fun cid : Z => cid) (fun _ => 0%Z) ks).
  intro Hrun.
  destruct (repeat_rounds_ok self (Z.to_nat num_runs) ar0 wc0 rng)
    as [ar1 [wc1 [g1 [Hrep [Hk _]]]]].
  - intros k Hin. apply dict_of_keys_in. rewrite map_id. exact Hin.
  - intros k Hin. apply dict_of_keys_in. rewrite map_id. exact Hin.
  - rewrite Hrep in Hrun. injection Hrun as <- _ _.
    rewrite Hk. unfold ar0. rewrite dict_of_keys_NoDup.
    + apply map_id.
    + rewrite map_id. exact choices_distinct.
Qed.

End RankingOrder.

(** The choice table of a constructed simulator has distinct keys. *)
Lemma choices_init_distinct (cs : list Choice.t) (fs : list Factor.t)
  (ss : list Score.t) :
  NoDup (keys (choices (init cs fs ss))).
Proof. simpl. apply dict_of_NoDup. Qed.



(* ------------------------------------------------------------------ *)
(** ** Sensitivity analysis on a missing factor *)

Lemma linspace_nonneg (start stop : Q) (num : Z) :
  (0 <= num)%Z ->
  exists ms, linspace start stop num = Ok ms /\ List.length ms = Z.to_nat num.
Proof.
  intro Hnum. unfold linspace.
  destruct (Z.ltb_spec num 0) as [Hlt|_]; [lia|].
  eexists. split; [reflexivity|].
  rewrite length_map, length_seq. reflexivity.
Qed.

Lemma missing_factor_absent (cs : list Choice.t) (fs : list Factor.t)
  (ss : list Score.t) (factor_id : Z) :
  ~ In factor_id (map Factor.id fs) ->
  get factor_id (normalized_weights (init cs fs ss)) = None /\
  get factor_id (factors (init cs fs ss)) = None.
Proof.
  intro Hmissing. split; apply get_None_keys; intro Hin;
    apply Hmissing; simpl in Hin; exact (keys_dict_of _ _ _ _ Hin).
Qed.

(** C4, as the code has it.  For a factor id that is not among the
    supplied factors and a step count that is not negative,
    [sensitivity_analysis] raises [KeyError], the lookup failure of the
    subscript [self.normalized_weights[factor_id]] (of
    [self.factors[factor_id]] when there is no step), and leaves the
    simulator as it was. *)
Theorem C4_missing_factor_KeyError
  (cs : list Choice.t) (fs : list Factor.t) (ss : list Score.t)
  (factor_id : Z) (weight_range : Q * Q) (steps : Z) :
  ~ In factor_id (map Factor.id fs) ->
  (0 <= steps)%Z ->
  sensitivity_analysis factor_id weight_range steps (init cs fs ss) =
  (Raise KeyError, init cs fs ss).
Proof.
  intros Hmissing Hsteps.
  destruct (missing_factor_absent cs fs ss factor_id Hmissing) as [Hnw Hfac].
  destruct (linspace_nonneg (fst weight_range) (snd weight_range) steps Hsteps)
    as [ms [Hms Hlen]].
  unfold sensitivity_analysis, bindM, read, lift.
  rewrite Hms. destruct ms as [|m ms].
  - cbn [for_eachM ret]. unfold getitem. rewrite Hfac. reflexivity.
  - cbn [for_eachM]. unfold bindM at 1.
    unfold sensitivity_step, bindM, read, lift, getitem.
    rewrite Hnw. reflexivity.
Qed.

(* ================================================================== *)
(** * Evaluations on concrete decisions *)

Import Examples.

(** ** Weight normalizer *)

(** The three cases of C7: on [sim], whose raw weights 1 and 3 sum to
    4; on a single factor of weight 0; on an empty factor list. *)
Lemma C7_weight_normalization_witness :
  (get 1%Z (normalized_weights sim) = Some (1 # 4) /\
   get 2%Z (normalized_weights sim) = Some (3 # 4) /\
   get 7%Z (normalized_weights sim) = None /\
   get (Factor.id joy) (normalized_weights sim) = Some (3 # 4)) /\
  (get 3%Z (normalized_weights (init [stay] [idle] [])) = Some 1 /\
   get (Factor.id idle) (normalized_weights (init [stay] [idle] [])) =
     Some 1) /\
  normalized_weights (init [stay] [] marks) = [].
Proof.
  split; [|split].
  - destruct (proj1 (C7_weight_normalization [stay; move] [cost; joy] marks))
      as [Hall Hown]; [reflexivity|].
    split; [exact (Hall 1%Z)|]. split; [exact (Hall 2%Z)|].
    split; [exact (Hall 7%Z)|].
    apply (Hown).
    + simpl. constructor.
      * intros [Heq|[]]. discriminate.
      * constructor; [intros [] | constructor].
    + right. left. reflexivity.
  - destruct (proj1 (proj2 (C7_weight_normalization [stay] [idle] [])))
      as [Hall Hown]; [reflexivity | discriminate |].
    split; [exact (Hall 3%Z)|].
    apply (Hown).
    + simpl. constructor; [intros [] | constructor].
    + left. reflexivity.
  - apply (proj2 (proj2 (C7_weight_normalization [stay] [] marks))).
    reflexivity.
Defined.

(** ** Score sampler *)

(** C8 on a deterministic Score and on [noisy], a Score of 5 with
    uncertainty 2: the draw 11 is cut to 10, the draw -3 is cut to 0 and
    the draw 6 is kept. *)
Lemma C8_sample_score_witness :
  sample_score (Score.mk 1 1 8 0) tape = (8, tape) /\
  (snd (sample_score noisy tape) = [-4; 1 # 2] /\
   fst (sample_score noisy tape) = 10 /\
   fst (sample_score noisy [-4; 1 # 2]) = 0 /\
   fst (sample_score noisy [1 # 2]) = 5 + 2 * (1 # 2)) /\
  0 <= fst (sample_score noisy tape) <= 10 /\
  (fst (simulate_once (init [stay] [cost] [noisy]) 1%Z tape) == 10 /\
   snd (simulate_once (init [stay] [cost] [noisy]) 1%Z tape) = [-4; 1 # 2]).
Proof.
  split; [|split; [|split]].
  - apply (proj1 (C8_sample_score (Score.mk 1 1 8 0) tape)). reflexivity.
  - destruct (proj1 (proj2 (C8_sample_score noisy tape)))
      as [Hrng [_ [Hhigh _]]]; [reflexivity|].
    destruct (proj1 (proj2 (C8_sample_score noisy [-4; 1 # 2])))
      as [_ [Hlow _]]; [reflexivity|].
    destruct (proj1 (proj2 (C8_sample_score noisy [1 # 2])))
      as [_ [_ [_ [Hmid _]]]]; [reflexivity|].
    split; [exact Hrng|]. split; [|split].
    + apply Hhigh. discriminate.
    + apply Hlow. discriminate.
    + apply Hmid. split; reflexivity.
  - apply (proj1 (proj2 (proj2 (C8_sample_score noisy tape)))).
    split; discriminate.
  - exact (proj2 (proj2 (proj2 (C8_sample_score noisy tape)))
             [stay] cost eq_refl eq_refl).
Defined.

(** C3 fails on the code: a Score with uncertainty -1 is sampled
    without any rejection, and a run over it returns a report. *)
Lemma C3_negative_uncertainty_accepted :
  Score.uncertainty negative < 0 /\
  sample_score negative tape = (5, tape) /\
  exists report,
    run_simulation (init [stay] [cost] [negative]) 2 tape = Ok report.
Proof.
  split; [reflexivity|]. split; [reflexivity|].
  eexists. vm_compute. reflexivity.
Qed.

(** The amended C3 on that Score. *)
Lemma C3_negative_uncertainty_deterministic_witness :
  sample_score negative tape = (Score.score negative, tape).
Proof.
  apply (C3_negative_uncertainty_deterministic negative tape). reflexivity.
Defined.

(** ** Scores outside the factor table *)

(** C10 on a Score under factor id 9, which [cost] and [joy] do not
    have. *)
Lemma C10_foreign_score_ignored_witness :
  calculate_weighted_score
    (init [stay; move] [cost; joy] ([Score.mk 1 1 8 0] ++ stray :: [Score.mk 1 2 4 0]))
    1 =
  calculate_weighted_score
    (init [stay; move] [cost; joy] ([Score.mk 1 1 8 0] ++ [Score.mk 1 2 4 0]))
    1 /\
  simulate_once
    (init [stay; move] [cost; joy] ([Score.mk 1 1 8 0] ++ stray :: [Score.mk 1 2 4 0]))
    1 tape =
  simulate_once
    (init [stay; move] [cost; joy] ([Score.mk 1 1 8 0] ++ [Score.mk 1 2 4 0]))
    1 tape.
Proof.
  apply (C10_foreign_score_ignored [stay; move] [cost; joy]
           [Score.mk 1 1 8 0] [Score.mk 1 2 4 0] stray 1 tape).
  simpl. intros [Heq|[Heq|[]]]; discriminate.
Defined.

(** ** Validation and the win counters *)

(** C1 fails on the code: with no choice and five runs requested the
    call returns a report. *)
Lemma C1_empty_choices_reported :
  run_simulation (init [] [cost; joy] marks) 5 tape =
  Ok (mkReport 5 [] [] []).
Proof. vm_compute. reflexivity. Qed.

(** The amended C1 on an empty choice list and on a run count of -1. *)
Lemma C1_run_simulation_unvalidated_witness :
  run_simulation (init [] [cost; joy] marks) 5 tape =
    Ok (mkReport (Z.min 5 MAX_SIMULATION_RUNS) [] [] []) /\
  run_simulation (init [stay; move] [cost; joy] marks) (-1) tape =
    Raise ValueError.
Proof.
  split.
  - apply (proj1 (C1_run_simulation_unvalidated [] [cost; joy] marks 5 tape)).
    reflexivity.
  - apply (proj2 (C1_run_simulation_unvalidated
                    [stay; move] [cost; joy] marks (-1) tape)).
    + discriminate.
    + vm_compute. discriminate.
Defined.

(** C9 fails on the code: with no choice, a call for five runs completes
    and reports five simulations, yet no counter exists and their sum
    is 0. *)
Lemma C9_no_choice_no_win :
  run_simulation (init [] [cost; joy] marks) 5 tape =
    Ok (mkReport 5 [] [] []) /\
  simulate_rounds (init [] [cost; joy] marks) 5 tape = Ok ([], [], tape) /\
  sum_counts [] <> 5%Z.
Proof.
  split; [vm_compute; reflexivity|].
  split; [vm_compute; reflexivity|].
  vm_compute. discriminate.
Qed.

(** The amended C9 on three runs of [sim]. *)
Lemma C9_win_counts_sum_witness :
  exists all_results win_counts rng',
    simulate_rounds sim (Z.min 3 MAX_SIMULATION_RUNS) tape =
    Ok (all_results, win_counts, rng') /\
    sum_counts win_counts = Z.min 3 MAX_SIMULATION_RUNS /\
    num_simulations report3 = Z.min 3 MAX_SIMULATION_RUNS.
Proof.
  apply (C9_win_counts_sum sim 3 tape report3).
  - vm_compute. reflexivity.
  - vm_compute. discriminate.
Defined.

(** ** Ties *)



(** ** Sensitivity analysis *)

(** C4 fails on the code: for a missing factor id and a negative step
    count the failure is the [ValueError] of [np.linspace], raised
    before any lookup of the factor. *)
Lemma C4_negative_steps_ValueError :
  ~ In 7%Z (map Factor.id [cost; joy]) /\
  sensitivity_analysis 7 (1 # 2, 2) (-1) sim = (Raise ValueError, sim) /\
  ValueError <> KeyError.
Proof.
  split.
  - simpl. intros [Heq|[Heq|[]]]; discriminate.
  - split; [vm_compute; reflexivity | discriminate].
Qed.

(** The amended C4 on factor id 7 and the default sweep. *)
Lemma C4_missing_factor_KeyError_witness :
  sensitivity_analysis 7 (1 # 2, 2) 10 (init [stay; move] [cost; joy] marks) =
  (Raise KeyError, init [stay; move] [cost; joy] marks).
Proof.
  apply (C4_missing_factor_KeyError [stay; move] [cost; joy] marks 7
           (1 # 2, 2) 10).
  - simpl. intros [Heq|[Heq|[]]]; discriminate.
  - vm_compute. discriminate.
Defined.

(** C2 on the code, evaluated.  Factor 1 of [sim] is swept over the
    multipliers 9 and 1.  The call returns a report, yet the weight
    table it leaves behind is not the table it started from; and the
    scores reported at multiplier 1 are not the scores the same
    multiplier gets when it is the only step. *)
Theorem C2_sweep_mutates_shared_table :
  reduced (normalized_weights sim) = [(1%Z, 1 # 4); (2%Z, 3 # 4)] /\
  match sensitivity_analysis 1 (9, 1) 2 sim with
  | (Ok report, after) =>
      map (fun e => (Qred (multiplier e), reduced (entry_scores e)))
          (analysis report) =
        [(9, [("stay"%string, 7); ("move"%string, 5)]);
         (1, [("stay"%string, 6); ("move"%string, 6)])] /\
      reduced (normalized_weights after) = [(1%Z, 1 # 4); (2%Z, 1 # 2)]
  | (Raise _, _) => False
  end /\
  match sensitivity_analysis 1 (1, 1) 1 sim with
  | (Ok report, _) =>
      map (fun e => (Qred (multiplier e), reduced (entry_scores e)))
          (analysis report) =
        [(1, [("stay"%string, 5); ("move"%string, 7)])]
  | (Raise _, _) => False
  end.
Proof. vm_compute. repeat split. Qed.

(** C6 on the code, evaluated.  In the same sweep the entry with
    multiplier 1 reports 6 for both choices and names [stay] the
    winner, where the unperturbed deterministic scores are 5 for [stay]
    and 7 for [move]. *)
Theorem C6_unit_multiplier_drifts :
  Qred (calculate_weighted_score sim 1) = 5 /\
  Qred (calculate_weighted_score sim 2) = 7 /\
  match sensitivity_analysis 1 (9, 1) 2 sim with
  | (Ok report, _) =>
      map (fun e => (Qred (multiplier e), reduced (entry_scores e), winner e))
          (filter (fun e => Qeq_bool (multiplier e) 1) (analysis report)) =
        [(1, [("stay"%string, 6); ("move"%string, 6)], "stay"%string)]
  | (Raise _, _) => False
  end.
Proof. vm_compute. repeat split. Qed.

(* ================================================================== *)
(** * Further properties of the module *)

Import MoreExamples.

(** ** The tables built by the constructor *)

Lemma set_absent {K V : Type} `{EqKey K} (k : K) (v : V) (d : dict K V) :
  get k d = None -> set k v d = d ++ [(k, v)].
Proof.
  induction d as [|[k' v'] d IH]; simpl; [reflexivity|].
  destruct (keqb k k'); [discriminate|].
  intro Hg. rewrite (IH Hg). reflexivity.
Qed.

(** With pairwise distinct keys a comprehension lists its elements in
    the order supplied. *)
Lemma dict_of_distinct_keys {A K V : Type} `{EqKey K}
  (key : A -> K) (g : A -> V) (xs : list A) :
  NoDup (map key xs) ->
  dict_of key g xs = map (fun x => (key x, g x)) xs.
Proof.
  unfold dict_of.
  assert (Hgen : forall d : dict K V,
             NoDup (map key xs) ->
             (forall k, In k (map key xs) -> ~ In k (keys d)) ->
             fold_left (fun d x => set (key x) (g x) d) xs d =
             d ++ map (fun x => (key x, g x)) xs).
  { induction xs as [|x xs IH]; intros d Hnd Hfresh; simpl.
    - rewrite app_nil_r. reflexivity.
    - simpl in Hnd. apply NoDup_cons_iff in Hnd. destruct Hnd as [Hx Hnd].
      assert (Habs : get (key x) d = None).
      { apply get_None_keys. apply Hfresh. left. reflexivity. }
      rewrite IH; [|exact Hnd|].
      + rewrite (set_absent _ _ d Habs), <- app_assoc. reflexivity.
      + intros k Hin Hk. apply keys_set_iff in Hk.
        destruct Hk as [->|Hk]; [contradiction|].
        apply (Hfresh k); [right; exact Hin | exact Hk]. }
  intro Hnd. rewrite Hgen; [reflexivity | exact Hnd | intros k _ []].
Qed.

(** X1. The choice table and the factor table have one entry per id
    supplied; under an id each holds the last record supplied with
    that id; and when the supplied ids are pairwise distinct the table
    lists the records in the order supplied. *)
Theorem X1_tables_keep_last_per_id
  (cs : list Choice.t) (fs : list Factor.t) (ss : list Score.t) :
  let self := init cs fs ss in
  (NoDup (keys (choices self)) /\
   (forall k, In k (keys (choices self)) <-> In k (map Choice.id cs)) /\
   (forall k, get k (choices self) =
              find (fun c => (Choice.id c =? k)%Z) (rev cs)) /\
   (NoDup (map Choice.id cs) -> values (choices self) = cs)) /\
  (NoDup (keys (factors self)) /\
   (forall k, In k (keys (factors self)) <-> In k (map Factor.id fs)) /\
   (forall k, get k (factors self) =
              find (fun f => (Factor.id f =? k)%Z) (rev fs)) /\
   (NoDup (map Factor.id fs) -> values (factors self) = fs)).
Proof.
  intro self. split.
  - split; [apply dict_of_NoDup|]. split; [|split].
    + intro k. split; [apply keys_dict_of | apply dict_of_keys_in].
    + intro k. exact (dict_of_get_last Choice.id cs k).
    + intro Hnd. simpl. rewrite (dict_of_distinct_keys _ _ cs Hnd).
      unfold values. rewrite map_map. simpl. apply map_id.
  - split; [apply dict_of_NoDup|]. split; [|split].
    + intro k. split; [apply keys_dict_of | apply dict_of_keys_in].
    + intro k. exact (dict_of_get_last Factor.id fs k).
    + intro Hnd. simpl. rewrite (dict_of_distinct_keys _ _ fs Hnd).
      unfold values. rewrite map_map. simpl. apply map_id.
Qed.

Lemma X1_tables_keep_last_per_id_witness :
  values (choices (init [stay; move] [cost; joy] marks)) = [stay; move] /\
  values (factors (init [stay; move] [cost; joy] marks)) = [cost; joy].
Proof.
  destruct (X1_tables_keep_last_per_id [stay; move] [cost; joy] marks)
    as [[_ [_ [_ Hc]]] [_ [_ [_ Hf]]]].
  split.
  - apply Hc. simpl. constructor.
    + intros [Heq|[]]. discriminate.
    + constructor; [intros [] | constructor].
  - apply Hf. simpl. constructor.
    + intros [Heq|[]]. discriminate.
    + constructor; [intros [] | constructor].
Defined.

(** ** The organized scores *)

Lemma keys_organize_step (organized : dict Z (dict Z Score.t))
  (s : Score.t) (k : Z) :
  In k (keys (organize_step organized s)) <->
  k = Score.choice_id s \/ In k (keys organized).
Proof.
  unfold organize_step, contains.
  destruct (get (Score.choice_id s) organized) as [row|] eqn:Erow.
  - rewrite Erow, keys_set_iff. reflexivity.
  - rewrite get_set_eq, !keys_set_iff. tauto.
Qed.

Lemma keys_organize_scores (ss : list Score.t) (k : Z) :
  In k (keys (organize_scores ss)) <->
  exists s, In s ss /\ Score.choice_id s = k.
Proof.
  unfold organize_scores.
  assert (Hgen : forall organized : dict Z (dict Z Score.t),
             In k (keys (fold_left organize_step ss organized)) <->
             In k (keys organized) \/
             exists s, In s ss /\ Score.choice_id s = k).
  { induction ss as [|s ss IH]; intro organized; simpl.
    - split; [intro Hin; left; exact Hin|].
      intros [Hin|[s [[] _]]]. exact Hin.
    - rewrite IH, keys_organize_step. split.
      + intros [[->|Hin]|[s' [Hin' Heq]]].
        * right. exists s. split; [left; reflexivity | reflexivity].
        * left. exact Hin.
        * right. exists s'. split; [right; exact Hin' | exact Heq].
      + intros [Hin|[s' [[->|Hin'] Heq]]].
        * left. right. exact Hin.
        * left. left. symmetry. exact Heq.
        * right. exists s'. split; assumption. }
  rewrite Hgen. split.
  - intros [[]|Hex]. exact Hex.
  - intro Hex. right. exact Hex.
Qed.

Lemma score_at_last (ss : list Score.t) (c f : Z) :
  score_at (organize_scores ss) c f = find (scores_pair c f) (rev ss).
Proof.
  unfold organize_scores. rewrite score_at_fold.
  change (score_at [] c f) with (@None Score.t).
  assert (Hgen : forall acc : option Score.t,
             fold_left (fun acc s =>
                          if ((Score.choice_id s =? c) &&
                              (Score.factor_id s =? f))%Z
                          then Some s else acc) ss acc =
             match find (scores_pair c f) (rev ss) with
             | Some s => Some s
             | None => acc
             end).
  { induction ss as [|s ss IH]; intro acc; simpl; [reflexivity|].
    rewrite IH, find_snoc.
    destruct (find (scores_pair c f) (rev ss)); [reflexivity|].
    unfold scores_pair.
    destruct ((Score.choice_id s =? c) && (Score.factor_id s =? f))%Z;
      reflexivity. }
  rewrite Hgen. destruct (find (scores_pair c f) (rev ss)); reflexivity.
Qed.

(** X2. [_organize_scores] files every Score under its choice id and
    its factor id.  What the table holds for a choice and a factor is
    the last Score supplied for that pair, and nothing when no Score
    was supplied for it; a choice has a row exactly when some Score
    names it. *)
Theorem X2_organize_scores_last_wins (ss : list Score.t) (c f : Z) :
  score_at (organize_scores ss) c f = find (scores_pair c f) (rev ss) /\
  (forall s, score_at (organize_scores ss) c f = Some s ->
     In s ss /\ Score.choice_id s = c /\ Score.factor_id s = f) /\
  (get c (organize_scores ss) = None <->
   forall s, In s ss -> Score.choice_id s <> c).
Proof.
  split; [apply score_at_last|]. split.
  - intros s Hs. rewrite score_at_last in Hs.
    apply find_some in Hs. destruct Hs as [Hin Hpair].
    apply in_rev in Hin. unfold scores_pair in Hpair.
    apply andb_true_iff in Hpair. destruct Hpair as [Hc Hf].
    apply Z.eqb_eq in Hc. apply Z.eqb_eq in Hf. auto.
  - rewrite get_None_keys, keys_organize_scores. split.
    + intros Hnone s Hin Heq. apply Hnone. exists s. auto.
    + intros Hall [s [Hin Heq]]. exact (Hall s Hin Heq).
Qed.

Lemma X2_organize_scores_last_wins_witness :
  (In remark (marks ++ [remark]) /\
   Score.choice_id remark = 1%Z /\ Score.factor_id remark = 1%Z) /\
  get 7%Z (organize_scores marks) = None.
Proof.
  split.
  - apply (proj1 (proj2 (X2_organize_scores_last_wins (marks ++ [remark]) 1 1))).
    vm_compute. reflexivity.
  - apply (proj2 (proj2 (X2_organize_scores_last_wins marks 7 0))).
    intros s Hin. simpl in Hin.
    destruct Hin as [<-|[<-|[<-|[<-|[]]]]]; discriminate.
Defined.

(** ** The normalized weights as fractions *)

Lemma fold_left_Qplus (l : list Q) (a : Q) :
  fold_left Qplus l a == a + py_sum l.
Proof.
  unfold py_sum. revert a. induction l as [|x l IH]; intro a; simpl.
  - ring.
  - rewrite IH, (IH (0 + x)). ring.
Qed.

Lemma py_sum_cons (x : Q) (l : list Q) : py_sum (x :: l) == x + py_sum l.
Proof.
  unfold py_sum at 1. simpl. rewrite fold_left_Qplus. ring.
Qed.

Lemma py_sum_nonneg (v : list Q) : Forall (fun x => 0 <= x) v -> 0 <= py_sum v.
Proof.
  induction 1 as [|x v Hx _ IH].
  - discriminate.
  - rewrite py_sum_cons. lra.
Qed.

(** A raw weight is at most the total when no raw weight is negative. *)
Lemma weight_le_total (fs : list Factor.t) (f : Factor.t) :
  (forall f', In f' fs -> 0 <= Factor.weight f') ->
  In f fs -> Factor.weight f <= total_weight fs.
Proof.
  unfold total_weight. induction fs as [|f0 fs IH]; intros Hpos Hin.
  - destruct Hin.
  - cbn [map]. rewrite py_sum_cons.
    assert (Hrest : 0 <= py_sum (map Factor.weight fs)).
    { apply py_sum_nonneg. apply Forall_forall. intros x Hx.
      apply in_map_iff in Hx. destruct Hx as [f' [<- Hf']].
      apply Hpos. right. exact Hf'. }
    destruct Hin as [->|Hin].
    + lra.
    + pose proof (Hpos f0 (or_introl eq_refl)) as H0.
      assert (IH' : Factor.weight f <= py_sum (map Factor.weight fs)).
      { apply IH; [|exact Hin]. intros f' Hf'. apply Hpos. right. exact Hf'. }
      lra.
Qed.

Lemma normalized_weight_fraction (fs : list Factor.t) (f : Factor.t) :
  (forall f', In f' fs -> 0 <= Factor.weight f') ->
  In f fs -> 0 <= normalized_weight fs f <= 1.
Proof.
  intros Hpos Hin. unfold normalized_weight.
  destruct (Qltb 0 (total_weight fs)) eqn:E.
  - apply Qltb_lt in E. split.
    + apply Qle_shift_div_l; [exact E|]. rewrite Qmult_0_l.
      exact (Hpos f Hin).
    + apply Qle_shift_div_r; [exact E|]. rewrite Qmult_1_l.
      exact (weight_le_total fs f Hpos Hin).
  - assert (Hn : 1 <= inject_Z (Z.of_nat (List.length fs))).
    { destruct fs as [|f0 fs']; [destruct Hin|].
      change 1 with (inject_Z 1). rewrite <- Zle_Qle.
      cbn [List.length]. lia. }
    split.
    + apply Qle_shift_div_l; [lra|]. rewrite Qmult_0_l. discriminate.
    + apply Qle_shift_div_r; [lra|]. rewrite Qmult_1_l. exact Hn.
Qed.

Lemma normalized_weights_fractions (cs : list Choice.t) (fs : list Factor.t)
  (ss : list Score.t) :
  (forall f, In f fs -> 0 <= Factor.weight f) ->
  forall k w, get k (normalized_weights (init cs fs ss)) = Some w ->
    0 <= w <= 1.
Proof.
  intros Hpos k w Hget. rewrite normalized_weights_lookup in Hget.
  simpl factors in Hget. rewrite dict_of_get_last in Hget.
  destruct (find (fun x => keqb (Factor.id x) k) (rev fs)) as [f|] eqn:Ef;
    [|discriminate].
  injection Hget as <-. apply normalized_weight_fraction; [exact Hpos|].
  apply find_some in Ef. apply in_rev. exact (proj1 Ef).
Qed.

Lemma normalized_weights_nonneg (cs : list Choice.t) (fs : list Factor.t)
  (ss : list Score.t) :
  (forall f, In f fs -> 0 <= Factor.weight f) ->
  Forall (fun kv => 0 <= snd kv) (normalized_weights (init cs fs ss)).
Proof.
  intro Hpos. apply Forall_forall. intros [k w] Hin. simpl.
  apply (normalized_weights_fractions cs fs ss Hpos k w).
  apply NoDup_get; [|exact Hin]. simpl. apply dict_of_NoDup.
Qed.

(** X3. The normalized weights are fractions.  When no raw weight is
    negative, every weight of the table lies between 0 and 1, whatever
    the raw total is (also when it is 0 and every factor gets [1 / n]),
    and whether or not ids are repeated.  The statement uses the order
    of the numbers only, which rounding preserves: a quotient of a
    weight by a total that is not smaller does not round above 1. *)
Theorem X3_weights_are_fractions
  (cs : list Choice.t) (fs : list Factor.t) (ss : list Score.t) :
  (forall f, In f fs -> 0 <= Factor.weight f) ->
  forall k w, get k (normalized_weights (init cs fs ss)) = Some w ->
    0 <= w <= 1.
Proof. exact (normalized_weights_fractions cs fs ss). Qed.

Lemma X3_weights_are_fractions_witness :
  0 <= 3 # 4 <= 1 /\ 0 <= 1 <= 1.
Proof.
  split.
  - apply (X3_weights_are_fractions [stay; move] [cost; joy] marks)
      with (k := 2%Z).
    + intros f [<-|[<-|[]]]; discriminate.
    + vm_compute. reflexivity.
  - apply (X3_weights_are_fractions [stay] [idle] []) with (k := 3%Z).
    + intros f [<-|[]]. discriminate.
    + vm_compute. reflexivity.
Defined.

(** ** Sampling without uncertainty *)

Lemma score_at_supplied (ss : list Score.t) (c f : Z) (s : Score.t) :
  score_at (organize_scores ss) c f = Some s ->
  In s ss /\ Score.choice_id s = c /\ Score.factor_id s = f.
Proof.
  intro Hs. rewrite score_at_last in Hs.
  apply find_some in Hs. destruct Hs as [Hin Hpair].
  apply in_rev in Hin. unfold scores_pair in Hpair.
  apply andb_true_iff in Hpair. destruct Hpair as [Hc Hf].
  apply Z.eqb_eq in Hc. apply Z.eqb_eq in Hf. auto.
Qed.

Lemma sample_score_certain {G : Type} `{Generator G} (s : Score.t) (rng : G) :
  Score.uncertainty s <= 0 -> sample_score s rng = (Score.score s, rng).
Proof.
  intro Hu. unfold sample_score.
  assert (E : Qltb 0 (Score.uncertainty s) = false)
    by (apply Qltb_ge; exact Hu).
  rewrite E. reflexivity.
Qed.

Lemma simulate_once_certain {G : Type} `{Generator G}
  (self : DecisionSimulator) (c : Z) (rng : G) :
  (forall f s, score_at (scores self) c f = Some s ->
               Score.uncertainty s <= 0) ->
  simulate_once self c rng = (calculate_weighted_score self c, rng).
Proof.
  intro Hcertain.
  rewrite simulate_once_score_at, calculate_weighted_score_score_at.
  generalize (normalized_weights self) as table. generalize 0 as total.
  intros total table. revert total.
  induction table as [|[f w] table IH]; intro total; simpl; [reflexivity|].
  destruct (score_at (scores self) c f) as [s|] eqn:Es.
  - rewrite (sample_score_certain s rng (Hcertain f s Es)). simpl.
    apply IH.
  - apply IH.
Qed.

(** X4. A choice whose Scores all have uncertainty 0 (or less) is
    simulated without touching the random stream: one simulation
    iteration returns exactly its deterministic weighted score and the
    stream as it was. *)
Theorem X4_certain_choice_needs_no_draw {G : Type} `{Generator G}
  (cs : list Choice.t) (fs : list Factor.t) (ss : list Score.t)
  (c : Z) (rng : G) :
  (forall s, In s ss -> Score.choice_id s = c -> Score.uncertainty s <= 0) ->
  simulate_once (init cs fs ss) c rng =
  (calculate_weighted_score (init cs fs ss) c, rng).
Proof.
  intro Hcertain. apply simulate_once_certain.
  intros f s Hs. simpl scores in Hs.
  destruct (score_at_supplied ss c f s Hs) as [Hin [Hc _]].
  exact (Hcertain s Hin Hc).
Qed.

Lemma X4_certain_choice_needs_no_draw_witness :
  simulate_once (init [stay; move] [cost; joy] shaky) 2 tape =
  (calculate_weighted_score (init [stay; move] [cost; joy] shaky) 2, tape).
Proof.
  apply (X4_certain_choice_needs_no_draw [stay; move] [cost; joy] shaky 2 tape).
  intros s Hin Hc. simpl in Hin.
  destruct Hin as [<-|[<-|[<-|[<-|[]]]]]; try discriminate Hc; discriminate.
Defined.

(** ** Totals are never negative *)

Lemma sample_score_nonneg {G : Type} `{Generator G} (s : Score.t) (rng : G) :
  (Score.uncertainty s <= 0 -> 0 <= Score.score s) ->
  0 <= fst (sample_score s rng).
Proof.
  intro Hs. unfold sample_score.
  destruct (Qltb 0 (Score.uncertainty s)) eqn:E.
  - destruct (normal (Score.score s) (Score.uncertainty s) rng) as [x g].
    simpl. apply clamp_range.
  - simpl. apply Hs. apply Qltb_ge. exact E.
Qed.

Section TotalSigns.
Context {G : Type} `{Generator G}.
Variable self : DecisionSimulator.
Variable c : Z.

Lemma weighted_fold_nonneg (table : dict Z Q) :
  (forall f s, score_at (scores self) c f = Some s -> 0 <= Score.score s) ->
  Forall (fun kv => 0 <= snd kv) table ->
  forall total,
    0 <= total ->
    0 <= fold_left (fun total (item : Z * Q) =>
                      match score_at (scores self) c (fst item) with
                      | Some s => total + Score.score s * snd item
                      | None => total
                      end) table total.
Proof.
  intros Hscores. induction 1 as [|[f w] table Hw _ IH]; intros total Htotal.
  - exact Htotal.
  - cbn [fold_left fst snd]. simpl in Hw.
    destruct (score_at (scores self) c f) as [s|] eqn:Es.
    + apply IH.
      assert (H0 : 0 <= Score.score s * w).
      { apply Qmult_le_0_compat; [exact (Hscores f s Es) | exact Hw]. }
      lra.
    + apply IH. exact Htotal.
Qed.

Lemma sampled_fold_nonneg (table : dict Z Q) :
  (forall f s, score_at (scores self) c f = Some s ->
     Score.uncertainty s <= 0 -> 0 <= Score.score s) ->
  Forall (fun kv => 0 <= snd kv) table ->
  forall (acc : Q * G),
    0 <= fst acc ->
    0 <= fst (fold_left (fun (acc : Q * G) (item : Z * Q) =>
                 match score_at (scores self) c (fst item) with
                 | Some s =>
                     (fst acc + fst (sample_score s (snd acc)) * snd item,
                      snd (sample_score s (snd acc)))
                 | None => acc
                 end) table acc).
Proof.
  intros Hscores. induction 1 as [|[f w] table Hw _ IH]; intros acc Hacc.
  - exact Hacc.
  - cbn [fold_left]. cbn [fst snd] in *.
    destruct (score_at (scores self) c f) as [s|] eqn:Es.
    + apply IH. cbn [fst].
      assert (H0 : 0 <= fst (sample_score s (snd acc)) * w).
      { apply Qmult_le_0_compat; [|exact Hw].
        apply sample_score_nonneg. exact (Hscores f s Es). }
      lra.
    + apply IH. exact Hacc.
Qed.
End TotalSigns.

Lemma totals_nonneg {G : Type} `{Generator G}
  (cs : list Choice.t) (fs : list Factor.t) (ss : list Score.t)
  (c : Z) (rng : G) :
  (forall f, In f fs -> 0 <= Factor.weight f) ->
  ((forall s, In s ss -> Score.choice_id s = c -> 0 <= Score.score s) ->
   0 <= calculate_weighted_score (init cs fs ss) c) /\
  ((forall s, In s ss -> Score.choice_id s = c ->
      Score.uncertainty s <= 0 -> 0 <= Score.score s) ->
   0 <= fst (simulate_once (init cs fs ss) c rng)).
Proof.
  intro Hpos.
  pose proof (normalized_weights_nonneg cs fs ss Hpos) as Hw.
  split; intro Hscores.
  - rewrite calculate_weighted_score_score_at.
    apply weighted_fold_nonneg; [|exact Hw | apply Qle_refl].
    intros f s Hs. simpl scores in Hs.
    destruct (score_at_supplied ss c f s Hs) as [Hin [Hc _]].
    exact (Hscores s Hin Hc).
  - rewrite simulate_once_score_at.
    apply sampled_fold_nonneg; [|exact Hw | apply Qle_refl].
    intros f s Hs. simpl scores in Hs.
    destruct (score_at_supplied ss c f s Hs) as [Hin [Hc _]].
    exact (Hscores s Hin Hc).
Qed.

(** X5. Totals are never negative.  When no raw weight is negative, the
    deterministic weighted score of a choice is not negative if none of
    its Scores is; and a sampled total of the choice is not negative if
    none of its Scores without uncertainty is: a Score with positive
    uncertainty is clamped and cannot contribute a negative value,
    whatever the random stream yields.  Only signs of products and sums
    are used, which rounding preserves. *)
Theorem X5_totals_never_negative {G : Type} `{Generator G}
  (cs : list Choice.t) (fs : list Factor.t) (ss : list Score.t)
  (c : Z) (rng : G) :
  (forall f, In f fs -> 0 <= Factor.weight f) ->
  ((forall s, In s ss -> Score.choice_id s = c -> 0 <= Score.score s) ->
   0 <= calculate_weighted_score (init cs fs ss) c) /\
  ((forall s, In s ss -> Score.choice_id s = c ->
      Score.uncertainty s <= 0 -> 0 <= Score.score s) ->
   0 <= fst (simulate_once (init cs fs ss) c rng)).
Proof. exact (totals_nonneg cs fs ss c rng). Qed.

Lemma X5_totals_never_negative_witness :
  0 <= calculate_weighted_score (init [stay; move] [cost; joy] shaky) 1 /\
  0 <= fst (simulate_once
              (init [stay; move] [cost; joy]
                 [Score.mk 1 1 (-8) 3; Score.mk 1 2 4 0]) 1 tape).
Proof.
  assert (Hpos : forall f, In f [cost; joy] -> 0 <= Factor.weight f).
  { intros f [<-|[<-|[]]]; discriminate. }
  split.
  - apply (proj1 (X5_totals_never_negative
                    [stay; move] [cost; joy] shaky 1 tape Hpos)).
    intros s Hin _. simpl in Hin.
    destruct Hin as [<-|[<-|[<-|[<-|[]]]]]; discriminate.
  - apply (proj2 (X5_totals_never_negative
                    [stay; move] [cost; joy]
                    [Score.mk 1 1 (-8) 3; Score.mk 1 2 4 0] 1 tape Hpos)).
    intros s Hin _ Hu. simpl in Hin.
    destruct Hin as [<-|[<-|[]]].
    + exfalso. apply Hu. reflexivity.
    + discriminate.
Defined.

(** ** Scores of other choices *)

Lemma score_at_own_scores (ss : list Score.t) (c f : Z) :
  score_at (organize_scores
              (filter (fun s => (Score.choice_id s =? c)%Z) ss)) c f =
  score_at (organize_scores ss) c f.
Proof.
  unfold organize_scores. rewrite !score_at_fold.
  generalize (score_at [] c f) as acc.
  induction ss as [|s ss IH]; intro acc; simpl; [reflexivity|].
  destruct (Score.choice_id s =? c)%Z eqn:E; simpl.
  - rewrite E. apply IH.
  - apply IH.
Qed.

(** X6. The totals of a choice depend on its own Scores only: dropping
    every Score of the other choices changes neither its deterministic
    weighted score nor a simulation iteration for it (total and
    remaining random stream). *)
Theorem X6_totals_use_own_scores_only {G : Type} `{Generator G}
  (cs : list Choice.t) (fs : list Factor.t) (ss : list Score.t)
  (c : Z) (rng : G) :
  calculate_weighted_score
    (init cs fs (filter (fun s => (Score.choice_id s =? c)%Z) ss)) c =
  calculate_weighted_score (init cs fs ss) c /\
  simulate_once
    (init cs fs (filter (fun s => (Score.choice_id s =? c)%Z) ss)) c rng =
  simulate_once (init cs fs ss) c rng.
Proof.
  split.
  - rewrite !calculate_weighted_score_score_at.
    apply fold_left_ext_in. intros a item _. simpl scores.
    rewrite score_at_own_scores. reflexivity.
  - rewrite !simulate_once_score_at.
    apply fold_left_ext_in. intros a item _. simpl scores.
    rewrite score_at_own_scores. reflexivity.
Qed.

(** ** What the sample series hold *)

Lemma set_Forall {K V : Type} `{EqKey K} (P : K * V -> Prop)
  (k : K) (v : V) (d : dict K V) :
  Forall P d -> P (k, v) -> Forall P (set k v d).
Proof.
  intros Hd Hkv. induction Hd as [|[k' v'] d Hhd Htl IH]; simpl.
  - constructor; [exact Hkv | constructor].
  - destruct (keqb k k').
    + constructor; [exact Hkv | exact Htl].
    + constructor; [exact Hhd | exact IH].
Qed.

Lemma get_In {K V : Type} `{EqKey K} (k : K) (v : V) (d : dict K V) :
  get k d = Some v -> In (k, v) d.
Proof.
  induction d as [|[k' v'] d IH]; simpl; [discriminate|].
  destruct (keqb k k') eqn:E.
  - intros [= ->]. apply keqb_eq in E. subst k'. left. reflexivity.
  - intro Hg. right. exact (IH Hg).
Qed.

Section Samples.
Context {G : Type} `{Generator G}.
Variable self : DecisionSimulator.
Variable P : Z -> Q -> Prop.
Hypothesis sample_ok :
  forall k g, In k (keys (choices self)) -> P k (fst (simulate_once self k g)).

Lemma round_loop_samples (l : list Z) :
  forall (rs : dict Z Q) (ar : dict Z (list Q)) (g : G)
         (rs' : dict Z Q) (ar' : dict Z (list Q)) (g' : G),
    incl l (keys (choices self)) ->
    Forall (fun kv => Forall (P (fst kv)) (snd kv)) ar ->
    for_each (round_step self) l (rs, ar, g) = Ok (rs', ar', g') ->
    Forall (fun kv => Forall (P (fst kv)) (snd kv)) ar'.
Proof.
  induction l as [|k0 l IH]; intros rs ar g rs' ar' g' Hincl Hinv Hrun.
  - simpl in Hrun. injection Hrun as _ <- _. exact Hinv.
  - rewrite for_each_cons, round_step_eq in Hrun.
    unfold getitem in Hrun.
    destruct (get k0 ar) as [series|] eqn:Eget; [|discriminate].
    apply IH in Hrun; [exact Hrun | |].
    + intros k Hin. apply Hincl. right. exact Hin.
    + apply set_Forall; [exact Hinv|]. simpl.
      apply Forall_app. split.
      * apply get_In in Eget.
        exact (proj1 (Forall_forall _ _) Hinv (k0, series) Eget).
      * constructor; [|constructor]. apply sample_ok.
        apply Hincl. left. reflexivity.
Qed.

Lemma repeat_rounds_samples (n : nat) :
  forall (ar : dict Z (list Q)) (wc : dict Z Z) (g : G)
         (ar' : dict Z (list Q)) (wc' : dict Z Z) (g' : G),
    Forall (fun kv => Forall (P (fst kv)) (snd kv)) ar ->
    repeat_rounds self n (ar, wc, g) = Ok (ar', wc', g') ->
    Forall (fun kv => Forall (P (fst kv)) (snd kv)) ar'.
Proof.
  induction n as [|n IH]; intros ar wc g ar' wc' g' Hinv Hrun.
  - simpl in Hrun. injection Hrun as <- _ _. exact Hinv.
  - rewrite repeat_rounds_S in Hrun.
    destruct (run_round self (ar, wc, g)) as [[[ar1 wc1] g1]|e] eqn:Eround;
      [|discriminate].
    apply IH in Hrun; [exact Hrun|].
    unfold run_round in Eround.
    destruct (for_each (round_step self) (keys (choices self)) ([], ar, g))
      as [[[rs1 ar2] g2]|e] eqn:Eloop; simpl bind in Eround; [|discriminate].
    destruct (count_winner rs1 wc) as [wc2|e]; simpl bind in Eround;
      [|discriminate].
    injection Eround as <- _ _.
    apply (round_loop_samples _ _ _ _ _ _ _ (incl_refl _) Hinv Eloop).
Qed.

(** Every sample recorded for a choice is the total of one simulation
    iteration for that choice. *)
Lemma simulate_rounds_samples (num_runs : Z) (rng : G)
  (ar : dict Z (list Q)) (wc : dict Z Z) (g' : G) :
  simulate_rounds self num_runs rng = Ok (ar, wc, g') ->
  Forall (fun kv => Forall (P (fst kv)) (snd kv)) ar.
Proof.
  unfold simulate_rounds. intro Hrun.
  apply repeat_rounds_samples in Hrun; [exact Hrun|].
  apply Forall_forall. intros [k v] Hin.
  pose proof (dict_of_const_values (fun cid : Z => cid) (@nil Q)
                (keys (choices self))) as Hnil.
  apply (proj1 (Forall_forall _ _) Hnil) in Hin. simpl in Hin. subst v.
  constructor.
Qed.
End Samples.

Section SeriesLength.
Context {G : Type} `{Generator G}.
Variable self : DecisionSimulator.

Lemma round_loop_length (l : list Z) :
  forall (rs : dict Z Q) (ar : dict Z (list Q)) (g : G)
         (rs' : dict Z Q) (ar' : dict Z (list Q)) (g' : G),
    NoDup l ->
    for_each (round_step self) l (rs, ar, g) = Ok (rs', ar', g') ->
    forall k v', get k ar' = Some v' ->
      exists v, get k ar = Some v /\
        (In k l -> List.length v' = S (List.length v)) /\
        (~ In k l -> v' = v).
Proof.
  induction l as [|k0 l IH]; intros rs ar g rs' ar' g' Hnd Hrun k v' Hget.
  - simpl in Hrun. injection Hrun as _ <- _. exists v'.
    split; [exact Hget|]. split; [intros [] | reflexivity].
  - rewrite for_each_cons, round_step_eq in Hrun.
    unfold getitem in Hrun.
    destruct (get k0 ar) as [series|] eqn:Eget; [|discriminate].
    apply NoDup_cons_iff in Hnd. destruct Hnd as [Hk0 Hnd].
    destruct (IH _ _ _ _ _ _ Hnd Hrun k v' Hget) as [v1 [Hg1 [Hin1 Hout1]]].
    destruct (Z.eq_dec k0 k) as [->|Hne].
    + rewrite get_set_eq in Hg1. injection Hg1 as <-.
      exists series. split; [exact Eget|]. split.
      * intros _. rewrite (Hout1 Hk0), length_app. simpl. lia.
      * intro Hn. exfalso. apply Hn. left. reflexivity.
    + rewrite get_set_ne in Hg1 by exact Hne.
      exists v1. split; [exact Hg1|]. split.
      * intros [Heq|Hin]; [contradiction | exact (Hin1 Hin)].
      * intro Hn. apply Hout1. intro Hin. apply Hn. right. exact Hin.
Qed.

Hypothesis choices_distinct : NoDup (keys (choices self)).

Lemma repeat_rounds_length (n : nat) :
  forall (ar : dict Z (list Q)) (wc : dict Z Z) (g : G)
         (ar' : dict Z (list Q)) (wc' : dict Z Z) (g' : G),
    repeat_rounds self n (ar, wc, g) = Ok (ar', wc', g') ->
    forall k v', get k ar' = Some v' ->
      exists v, get k ar = Some v /\
        (In k (keys (choices self)) ->
         List.length v' = (List.length v + n)%nat).
Proof.
  induction n as [|n IH]; intros ar wc g ar' wc' g' Hrun k v' Hget.
  - simpl in Hrun. injection Hrun as <- _ _. exists v'.
    split; [exact Hget | intros _; lia].
  - rewrite repeat_rounds_S in Hrun.
    destruct (run_round self (ar, wc, g)) as [[[ar1 wc1] g1]|e] eqn:Eround;
      [|discriminate].
    destruct (IH _ _ _ _ _ _ Hrun k v' Hget) as [v1 [Hg1 Hlen1]].
    unfold run_round in Eround.
    destruct (for_each (round_step self) (keys (choices self)) ([], ar, g))
      as [[[rs1 ar2] g2]|e] eqn:Eloop; simpl bind in Eround; [|discriminate].
    destruct (count_winner rs1 wc) as [wc2|e]; simpl bind in Eround;
      [|discriminate].
    injection Eround as <- _ _.
    destruct (round_loop_length _ _ _ _ _ _ _ choices_distinct Eloop k v1 Hg1)
      as [v [Hg [Hin _]]].
    exists v. split; [exact Hg|].
    intro Hk. rewrite (Hlen1 Hk), (Hin Hk). lia.
Qed.

Lemma simulate_rounds_length (num_runs : Z) (rng : G)
  (ar : dict Z (list Q)) (wc : dict Z Z) (g' : G) :
  simulate_rounds self num_runs rng = Ok (ar, wc, g') ->
  Forall (fun kv => List.length (snd kv) = Z.to_nat num_runs) ar.
Proof.
  intro Hrun.
  destruct (simulate_rounds_NoDup self num_runs rng ar wc g' Hrun)
    as [Hnd _].
  pose proof (simulate_rounds_keys self choices_distinct
                num_runs rng ar wc g' Hrun) as Hkeys.
  unfold simulate_rounds in Hrun.
  apply Forall_forall. intros [k v'] Hin. simpl.
  destruct (repeat_rounds_length _ _ _ _ _ _ _ Hrun k v'
              (NoDup_get k v' ar Hnd Hin)) as [v [Hg Hlen]].
  apply get_In in Hg.
  pose proof (dict_of_const_values (fun cid : Z => cid) (@nil Q)
                (keys (choices self))) as Hnil.
  apply (proj1 (Forall_forall _ _) Hnil) in Hg. simpl in Hg. subst v.
  rewrite Hlen; [reflexivity|].
  rewrite <- Hkeys. exact (in_keys k v' ar Hin).
Qed.
End SeriesLength.

(** X7. The rounds of a constructed simulator always run to
    completion, and then the sample table lists the choices in table
    order with exactly as many samples per choice as rounds were
    played, [num_runs] of them, none when [num_runs <= 0]. *)
Theorem X7_one_sample_per_round {G : Type} `{Generator G}
  (cs : list Choice.t) (fs : list Factor.t) (ss : list Score.t)
  (num_runs : Z) (rng : G) :
  exists all_results win_counts rng',
    simulate_rounds (init cs fs ss) num_runs rng =
      Ok (all_results, win_counts, rng') /\
    keys all_results = keys (choices (init cs fs ss)) /\
    Forall (fun kv => List.length (snd kv) = Z.to_nat num_runs) all_results.
Proof.
  destruct (simulate_rounds_ok (init cs fs ss) num_runs rng)
    as [ar [wc [g' [Hrun _]]]].
  exists ar, wc, g'. split; [exact Hrun|]. split.
  - exact (simulate_rounds_keys _ (choices_init_distinct cs fs ss)
             num_runs rng ar wc g' Hrun).
  - exact (simulate_rounds_length _ (choices_init_distinct cs fs ss)
             num_runs rng ar wc g' Hrun).
Qed.

(** ** The statistics of a series *)

Lemma np_min_spec (v : list Q) (lo : Q) :
  np_min v = Ok lo -> In lo v /\ Forall (fun x => lo <= x) v.
Proof.
  destruct v as [|x xs]; simpl; [discriminate|].
  intros [= <-].
  assert (Hgen : forall m,
             let r := fold_left (fun m y => if Qltb y m then y else m) xs m in
             (r = m \/ In r xs) /\ r <= m /\ Forall (fun y => r <= y) xs).
  { induction xs as [|y xs IH]; intro m; simpl.
    - split; [left; reflexivity|]. split; [apply Qle_refl | constructor].
    - destruct (Qltb y m) eqn:E.
      + apply Qltb_lt in E. destruct (IH y) as [Hr [Hle Hall]].
        split; [destruct Hr as [->|Hin]; auto|].
        split; [lra|]. constructor; [exact Hle | exact Hall].
      + apply Qltb_ge in E. destruct (IH m) as [Hr [Hle Hall]].
        split; [destruct Hr as [->|Hin]; auto|].
        split; [exact Hle|]. constructor; [lra | exact Hall]. }
  destruct (Hgen x) as [Hr [Hle Hall]]. split.
  - destruct Hr as [->|Hin]; [left; reflexivity | right; exact Hin].
  - constructor; assumption.
Qed.

Lemma np_max_spec (v : list Q) (hi : Q) :
  np_max v = Ok hi -> In hi v /\ Forall (fun x => x <= hi) v.
Proof.
  destruct v as [|x xs]; simpl; [discriminate|].
  intros [= <-].
  assert (Hgen : forall m,
             let r := fold_left (fun m y => if Qltb m y then y else m) xs m in
             (r = m \/ In r xs) /\ m <= r /\ Forall (fun y => y <= r) xs).
  { induction xs as [|y xs IH]; intro m; simpl.
    - split; [left; reflexivity|]. split; [apply Qle_refl | constructor].
    - destruct (Qltb m y) eqn:E.
      + apply Qltb_lt in E. destruct (IH y) as [Hr [Hle Hall]].
        split; [destruct Hr as [->|Hin]; auto|].
        split; [lra|]. constructor; [exact Hle | exact Hall].
      + apply Qltb_ge in E. destruct (IH m) as [Hr [Hle Hall]].
        split; [destruct Hr as [->|Hin]; auto|].
        split; [exact Hle|]. constructor; [lra | exact Hall]. }
  destruct (Hgen x) as [Hr [Hle Hall]]. split.
  - destruct Hr as [->|Hin]; [left; reflexivity | right; exact Hin].
  - constructor; assumption.
Qed.







(** ** What a report is made of *)

Lemma run_simulation_anatomy {G : Type} `{Generator G}
  (self : DecisionSimulator) (num_runs : Z) (rng : G)
  (report : SimulationReport) :
  run_simulation self num_runs rng = Ok report ->
  exists ar wc g',
    simulate_rounds self (Z.min num_runs MAX_SIMULATION_RUNS) rng =
      Ok (ar, wc, g') /\
    for_each (results_step self wc (Z.min num_runs MAX_SIMULATION_RUNS))
      ar [] = Ok (choice_results report) /\
    for_each (win_rate_step self (Z.min num_runs MAX_SIMULATION_RUNS))
      wc [] = Ok (win_rates report).
Proof.
  unfold run_simulation.
  destruct (simulate_rounds self (Z.min num_runs MAX_SIMULATION_RUNS) rng)
    as [[[ar wc] g']|e] eqn:Hrounds; simpl bind; [|discriminate].
  unfold build_report.
  destruct (for_each (results_step self wc
                        (Z.min num_runs MAX_SIMULATION_RUNS)) ar [])
    as [results|e] eqn:Hresults; simpl bind; [|discriminate].
  destruct (for_each (win_rate_step self
                        (Z.min num_runs MAX_SIMULATION_RUNS)) wc [])
    as [rates|e] eqn:Hrates; simpl bind; [|discriminate].
  intros [= <-]. exists ar, wc, g'.
  split; [reflexivity|]. split; assumption.
Qed.

Lemma In_set {K V : Type} `{EqKey K} (k k' : K) (v v' : V) (d : dict K V) :
  In (k', v') (set k v d) -> (k', v') = (k, v) \/ In (k', v') d.
Proof.
  induction d as [|[k0 v0] d IH]; simpl.
  - intros [Heq|[]]. left. symmetry. exact Heq.
  - destruct (keqb k k0); simpl.
    + intros [Heq|Hin]; [left; symmetry; exact Heq | right; right; exact Hin].
    + intros [Heq|Hin]; [right; left; exact Heq|].
      destruct (IH Hin) as [Hnew|Hold]; [left; exact Hnew | right; right; exact Hold].
Qed.

(** Every entry of the statistics table was computed from the series
    of its choice. *)
Lemma results_loop_entries (self : DecisionSimulator) (wc : dict Z Z)
  (num_runs : Z) (ar : dict Z (list Q)) :
  forall acc results : dict Z ChoiceResult.t,
    for_each (results_step self wc num_runs) ar acc = Ok results ->
    forall k r, In (k, r) results ->
      In (k, r) acc \/
      exists v, In (k, v) ar /\ choice_result self wc num_runs k v = Ok r.
Proof.
  induction ar as [|[k0 v0] ar IH]; intros acc results Hrun k r Hin.
  - simpl in Hrun. injection Hrun as <-. left. exact Hin.
  - rewrite for_each_cons in Hrun. unfold results_step at 1 in Hrun.
    destruct (choice_result self wc num_runs k0 v0) as [r0|e] eqn:Er;
      simpl bind in Hrun; [|discriminate].
    destruct (IH _ _ Hrun k r Hin) as [Hacc|[v [Hv Hr]]].
    + apply In_set in Hacc. destruct Hacc as [Heq|Hacc].
      * injection Heq as -> ->. right. exists v0.
        split; [left; reflexivity | exact Er].
      * left. exact Hacc.
    + right. exists v. split; [right; exact Hv | exact Hr].
Qed.

Lemma choice_result_inv (self : DecisionSimulator) (wc : dict Z Z)
  (num_runs k : Z) (v : list Q) (r : ChoiceResult.t) :
  choice_result self wc num_runs k v = Ok r ->
  exists c lo hi count,
    get k (choices self) = Some c /\
    np_min v = Ok lo /\ np_max v = Ok hi /\
    get k wc = Some count /\
    ~ inject_Z num_runs == 0 /\
    r = ChoiceResult.mk k (Choice.name c) (calculate_weighted_score self k)
          (np_mean v) (np_std_squared v) lo hi
          (np_percentile v 5) (np_percentile v 25) (np_percentile v 50)
          (np_percentile v 75) (np_percentile v 95)
          (inject_Z count / inject_Z num_runs).
Proof.
  unfold choice_result, getitem, py_div.
  destruct (get k (choices self)) as [c|]; simpl bind; [|discriminate].
  destruct (np_min v) as [lo|e]; simpl bind; [|discriminate].
  destruct (np_max v) as [hi|e]; simpl bind; [|discriminate].
  destruct (get k wc) as [count|]; simpl bind; [|discriminate].
  destruct (Qeq_bool (inject_Z num_runs) 0) eqn:E; simpl bind; [discriminate|].
  intros [= <-]. exists c, lo, hi, count. repeat split.
  apply Qeq_bool_neq. exact E.
Qed.


Lemma np_mean_nonneg (v : list Q) : Forall (fun x => 0 <= x) v -> 0 <= np_mean v.
Proof.
  intro Hall. unfold np_mean, Qdiv. apply Qmult_le_0_compat.
  - induction Hall as [|x v Hx _ IH].
    + discriminate.
    + rewrite py_sum_cons. lra.
  - apply Qinv_le_0_compat. unfold Qlen, Qle. simpl. lia.
Qed.

(** X8. A call for at least one run always returns a report, and the
    report counts [min(num_runs, MAX_SIMULATION_RUNS)] simulations: a
    request above 10000 runs is cut down to 10000 without an error. *)
Theorem X8_run_count_is_capped {G : Type} `{Generator G}
  (self : DecisionSimulator) (num_runs : Z) (rng : G) :
  (1 <= num_runs)%Z ->
  exists report,
    run_simulation self num_runs rng = Ok report /\
    num_simulations report = Z.min num_runs 10000 /\
    (1 <= num_simulations report <= 10000)%Z.
Proof.
  intro Hn. destruct (run_simulation_total self num_runs rng Hn)
    as [report Hrun].
  exists report. split; [exact Hrun|].
  destruct (run_simulation_report self num_runs rng report Hrun) as [Hnum _].
  rewrite Hnum. unfold MAX_SIMULATION_RUNS. split; [reflexivity | lia].
Qed.

Lemma X8_run_count_is_capped_witness :
  exists report,
    run_simulation sim 20000 tape = Ok report /\
    num_simulations report = Z.min 20000 10000 /\
    (1 <= num_simulations report <= 10000)%Z.
Proof.
  apply (X8_run_count_is_capped sim 20000 tape). lia.
Defined.



(** X10. Reports are never negative.  When no raw weight and no Score is
    negative, each entry of a report has a min, a mean, a max and a
    deterministic score that are not negative, whatever the random
    stream yields.  Only signs of products, sums and quotients are
    used, which rounding preserves. *)
Theorem X10_report_never_negative {G : Type} `{Generator G}
  (cs : list Choice.t) (fs : list Factor.t) (ss : list Score.t)
  (num_runs : Z) (rng : G) (report : SimulationReport) (r : ChoiceResult.t) :
  (forall f, In f fs -> 0 <= Factor.weight f) ->
  (forall s, In s ss -> 0 <= Score.score s) ->
  run_simulation (init cs fs ss) num_runs rng = Ok report ->
  In r (values (choice_results report)) ->
  0 <= ChoiceResult.min r /\ 0 <= ChoiceResult.mean r /\
  0 <= ChoiceResult.max r /\ 0 <= ChoiceResult.deterministic_score r.
Proof.
  intros Hpos Hscores Hrun Hin.
  assert (Htotal : forall k (g : G),
             0 <= calculate_weighted_score (init cs fs ss) k /\
             0 <= fst (simulate_once (init cs fs ss) k g)).
  { intros k g. destruct (totals_nonneg cs fs ss k g Hpos) as [Hdet Hsim].
    split.
    - apply Hdet. intros s Hs _. exact (Hscores s Hs).
    - apply Hsim. intros s Hs _ _. exact (Hscores s Hs). }
  destruct (run_simulation_anatomy _ num_runs rng report Hrun)
    as [ar [wc [g' [Hrounds [Hresults _]]]]].
  pose proof (simulate_rounds_samples (init cs fs ss)
                (fun _ x => 0 <= x)
                (fun k g _ => proj2 (Htotal k g))
                _ rng ar wc g' Hrounds) as Hsamples.
  unfold values in Hin. apply in_map_iff in Hin.
  destruct Hin as [[k r'] [Heq Hin]]. simpl in Heq. subst r'.
  destruct (results_loop_entries _ _ _ _ _ _ Hresults k r Hin)
    as [[]|[v [Hv Hr]]].
  destruct (choice_result_inv _ _ _ _ _ _ Hr)
    as [c [lo [hi [count [_ [Hlo [Hhi [_ [_ ->]]]]]]]]].
  simpl.
  pose proof (proj1 (Forall_forall _ _) Hsamples (k, v) Hv) as Hall.
  simpl in Hall.
  destruct (np_min_spec v lo Hlo) as [Hlo_in _].
  destruct (np_max_spec v hi Hhi) as [Hhi_in _].
  split; [exact (proj1 (Forall_forall _ _) Hall lo Hlo_in)|].
  split; [exact (np_mean_nonneg v Hall)|].
  split; [exact (proj1 (Forall_forall _ _) Hall hi Hhi_in)|].
  exact (proj1 (Htotal k rng)).
Qed.

Lemma X10_report_never_negative_witness :
  Forall (fun r =>
            0 <= ChoiceResult.min r /\ 0 <= ChoiceResult.mean r /\
            0 <= ChoiceResult.max r /\
            0 <= ChoiceResult.deterministic_score r)
         (values (choice_results report3)).
Proof.
  apply Forall_forall. intros r Hin.
  apply (X10_report_never_negative [stay; move] [cost; joy] marks
           3 tape report3 r).
  - intros f [<-|[<-|[]]]; discriminate.
  - intros s Hs. simpl in Hs.
    destruct Hs as [<-|[<-|[<-|[<-|[]]]]]; discriminate.
  - vm_compute. reflexivity.
  - exact Hin.
Defined.

(** ** A decision without uncertainty *)




(** ** Rankings *)





(** ** Win rates *)

Section WinCounts.
Context {G : Type} `{Generator G}.
Variable self : DecisionSimulator.

Lemma count_winner_nonneg (rs : dict Z Q) (wc wc' : dict Z Z) :
  Forall (fun kv => (0 <= snd kv)%Z) wc ->
  count_winner rs wc = Ok wc' ->
  Forall (fun kv => (0 <= snd kv)%Z) wc'.
Proof.
  intros Hinv. unfold count_winner. destruct rs as [|kv rs].
  - intros [= <-]. exact Hinv.
  - destruct (py_max_key (kv :: rs)) as [w|e]; simpl bind; [|discriminate].
    unfold getitem. destruct (get w wc) as [c|] eqn:Ec; simpl bind;
      [|discriminate].
    intros [= <-]. apply set_Forall; [exact Hinv|]. simpl.
    apply get_In in Ec.
    pose proof (proj1 (Forall_forall _ _) Hinv (w, c) Ec) as Hc.
    simpl in Hc. lia.
Qed.

Lemma repeat_rounds_nonneg (n : nat) :
  forall (ar : dict Z (list Q)) (wc : dict Z Z) (g : G)
         (ar' : dict Z (list Q)) (wc' : dict Z Z) (g' : G),
    Forall (fun kv => (0 <= snd kv)%Z) wc ->
    repeat_rounds self n (ar, wc, g) = Ok (ar', wc', g') ->
    Forall (fun kv => (0 <= snd kv)%Z) wc'.
Proof.
  induction n as [|n IH]; intros ar wc g ar' wc' g' Hinv Hrun.
  - simpl in Hrun. injection Hrun as _ <- _. exact Hinv.
  - rewrite repeat_rounds_S in Hrun.
    destruct (run_round self (ar, wc, g)) as [[[ar1 wc1] g1]|e] eqn:Eround;
      [|discriminate].
    apply IH in Hrun; [exact Hrun|].
    unfold run_round in Eround.
    destruct (for_each (round_step self) (keys (choices self)) ([], ar, g))
      as [[[rs1 ar2] g2]|e]; simpl bind in Eround; [|discriminate].
    destruct (count_winner rs1 wc) as [wc2|e] eqn:Ecount;
      simpl bind in Eround; [|discriminate].
    injection Eround as _ <- _.
    exact (count_winner_nonneg rs1 wc wc2 Hinv Ecount).
Qed.

Hypothesis choices_distinct : NoDup (keys (choices self)).

(** After the rounds no counter is negative, and the counters are
    listed in the order of the choice table. *)
Lemma simulate_rounds_counts (num_runs : Z) (rng : G)
  (ar : dict Z (list Q)) (wc : dict Z Z) (g' : G) :
  simulate_rounds self num_runs rng = Ok (ar, wc, g') ->
  keys wc = keys (choices self) /\
  Forall (fun kv => (0 <= snd kv)%Z) wc.
Proof.
  unfold simulate_rounds.
  set (ks := keys (choices self)).
  set (ar0 := dict_of (fun cid : Z => cid) (fun _ => @nil Q) ks).
  set (wc0 := dict_of (fun cid : Z => cid) (fun _ => 0%Z) ks).
  intro Hrun. split.
  - destruct (repeat_rounds_ok self (Z.to_nat num_runs) ar0 wc0 rng)
      as [ar1 [wc1 [g1 [Hrep [_ [Hkw _]]]]]].
    + intros k Hin. apply dict_of_keys_in. rewrite map_id. exact Hin.
    + intros k Hin. apply dict_of_keys_in. rewrite map_id. exact Hin.
    + rewrite Hrep in Hrun. injection Hrun as _ <- _.
      rewrite Hkw. unfold wc0. rewrite dict_of_keys_NoDup.
      * apply map_id.
      * rewrite map_id. exact choices_distinct.
  - apply (repeat_rounds_nonneg (Z.to_nat num_runs) ar0 wc0 rng ar wc g');
      [|exact Hrun].
    apply Forall_impl
      with (P := fun kv : Z * Z => snd kv = 0%Z).
    + intros kv ->. lia.
    + apply dict_of_const_values.
Qed.
End WinCounts.

(** With distinct keys in [all_results] the statistics table has one
    entry per series, in the same order. *)
Lemma results_loop_Forall2 (self : DecisionSimulator) (wc : dict Z Z)
  (num_runs : Z) (ar : dict Z (list Q)) :
  forall acc results : dict Z ChoiceResult.t,
    NoDup (keys ar) -> (forall k, In k (keys ar) -> ~ In k (keys acc)) ->
    for_each (results_step self wc num_runs) ar acc = Ok results ->
    exists rs, results = acc ++ rs /\
      Forall2 (fun kv kr =>
                 fst kr = fst kv /\
                 choice_result self wc num_runs (fst kv) (snd kv) = Ok (snd kr))
              ar rs.
Proof.
  induction ar as [|[k v] ar IH]; intros acc results Hnd Hfresh Hrun.
  - simpl in Hrun. injection Hrun as <-. exists []. rewrite app_nil_r.
    split; [reflexivity | constructor].
  - rewrite for_each_cons in Hrun. unfold results_step at 1 in Hrun.
    destruct (choice_result self wc num_runs k v) as [r|e] eqn:Er;
      simpl bind in Hrun; [|discriminate].
    simpl in Hnd. apply NoDup_cons_iff in Hnd. destruct Hnd as [Hk Hnd].
    assert (Habs : get k acc = None).
    { apply get_None_keys. apply Hfresh. left. reflexivity. }
    rewrite (set_absent k r acc Habs) in Hrun.
    apply IH in Hrun; [|exact Hnd|].
    + destruct Hrun as [rs [Hres Hall]].
      exists ((k, r) :: rs). split.
      * rewrite Hres, <- app_assoc. reflexivity.
      * constructor; [split; [reflexivity | exact Er] | exact Hall].
    + intros k' Hin Hk'. unfold keys in Hk'. rewrite map_app in Hk'.
      apply in_app_iff in Hk'. destruct Hk' as [Hk'|[<-|[]]].
      * apply (Hfresh k'); [right; exact Hin | exact Hk'].
      * contradiction.
Qed.

Lemma map_get_keys {V A : Type} (F : option V -> A) (d : dict Z V) :
  NoDup (keys d) ->
  map (fun k => F (get k d)) (keys d) = map (fun kv => F (Some (snd kv))) d.
Proof.
  intro Hnd. unfold keys. rewrite map_map.
  apply map_ext_in. intros [k v] Hin. simpl.
  rewrite (NoDup_get k v d Hnd Hin). reflexivity.
Qed.

Lemma count_le_sum (wc : dict Z Z) (k c : Z) :
  Forall (fun kv => (0 <= snd kv)%Z) wc -> In (k, c) wc ->
  (c <= sum_counts wc)%Z.
Proof.
  unfold sum_counts, values.
  induction 1 as [|[k' c'] wc Hc Hall IH]; simpl; [intros []|].
  assert (Hrest : (0 <= fold_right Z.add 0 (map snd wc))%Z).
  { clear - Hall. induction Hall as [|[k0 c0] wc Hc0 _ IH0]; simpl in *; lia. }
  intros [Heq|Hin].
  - injection Heq as -> ->. simpl in Hc. lia.
  - specialize (IH Hin). simpl in Hc. lia.
Qed.

Lemma win_rates_of_entries (self : DecisionSimulator) (wc : dict Z Z)
  (num_runs : Z) (ar : dict Z (list Q)) (rs : dict Z ChoiceResult.t) :
  Forall2 (fun kv kr =>
             fst kr = fst kv /\
             choice_result self wc num_runs (fst kv) (snd kv) = Ok (snd kr))
          ar rs ->
  map ChoiceResult.win_rate (values rs) =
  map (fun k => match get k wc with
                | Some c => inject_Z c / inject_Z num_runs
                | None => 0
                end) (keys ar).
Proof.
  induction 1 as [|[k v] [k' r] ar rs [_ Hr] _ IH]; [reflexivity|].
  simpl in Hr. unfold values, keys in *. cbn [map fst snd]. rewrite IH.
  destruct (choice_result_inv _ _ _ _ _ _ Hr)
    as [c [lo [hi [count [_ [_ [_ [Hcount [_ ->]]]]]]]]].
  rewrite Hcount. reflexivity.
Qed.

(** X13. In a report over at least one choice the win rates of the
    statistics entries are counts over the rounds played: there is one
    whole count per entry, none negative, the counts sum to the
    reported number of simulations, each win rate is its count divided
    by that number, and so each win rate lies between 0 and 1.  (The
    sum of the rates themselves is left out: the rounded quotients need
    not sum to 1 exactly.) *)
Theorem X13_win_rates_are_counts_over_runs {G : Type} `{Generator G}
  (cs : list Choice.t) (fs : list Factor.t) (ss : list Score.t)
  (num_runs : Z) (rng : G) (report : SimulationReport) :
  cs <> [] ->
  run_simulation (init cs fs ss) num_runs rng = Ok report ->
  exists counts : list Z,
    map ChoiceResult.win_rate (values (choice_results report)) =
      map (fun c => inject_Z c / inject_Z (num_simulations report)) counts /\
    Forall (fun c => (0 <= c)%Z) counts /\
    fold_right Z.add 0%Z counts = num_simulations report /\
    Forall (fun r => 0 <= ChoiceResult.win_rate r <= 1)
           (values (choice_results report)).
Proof.
  intros Hcs Hrun.
  pose proof (choices_init_nonempty cs fs ss Hcs) as Hchoices.
  pose proof (choices_init_distinct cs fs ss) as Hnd.
  assert (Hn : (1 <= Z.min num_runs MAX_SIMULATION_RUNS)%Z).
  { destruct (Z_le_gt_dec num_runs 0) as [Hle|Hgt].
    - rewrite (run_simulation_no_rounds _ num_runs rng Hchoices Hle) in Hrun.
      discriminate.
    - unfold MAX_SIMULATION_RUNS. lia. }
  destruct (run_simulation_report _ num_runs rng report Hrun) as [Hnum _].
  destruct (run_simulation_anatomy _ num_runs rng report Hrun)
    as [ar [wc [g' [Hrounds [Hresults _]]]]].
  rewrite Hnum.
  set (runs := Z.min num_runs MAX_SIMULATION_RUNS) in *.
  assert (Hsum : sum_counts wc = runs).
  { destruct (simulate_rounds_ok (init cs fs ss) runs rng)
      as [ar1 [wc1 [g1 [Hrun1 [_ [_ [Hsum1 _]]]]]]].
    rewrite Hrounds in Hrun1. injection Hrun1 as <- <- <-.
    rewrite Hsum1. destruct (choices (init cs fs ss)); [contradiction | lia]. }
  pose proof (simulate_rounds_keys _ Hnd runs rng ar wc g' Hrounds) as Hkar.
  destruct (simulate_rounds_counts _ Hnd runs rng ar wc g' Hrounds)
    as [Hkwc Hnonneg].
  assert (Hpos : 0 < inject_Z runs) by (unfold Qlt; simpl; lia).
  exists (values wc). split; [|split; [|split]].
  - assert (Hndar : NoDup (keys ar)) by (rewrite Hkar; exact Hnd).
    destruct (results_loop_Forall2 (init cs fs ss) wc runs ar []
                (choice_results report) Hndar (fun k _ Hin => Hin) Hresults)
      as [rs [Hres Hall]].
    simpl in Hres. rewrite Hres, (win_rates_of_entries _ _ _ _ _ Hall).
    rewrite Hkar, <- Hkwc.
    rewrite (map_get_keys
               (fun o => match o with
                         | Some c => inject_Z c / inject_Z runs
                         | None => 0
                         end) wc) by (rewrite Hkwc; exact Hnd).
    unfold values. rewrite map_map. reflexivity.
  - unfold values. apply Forall_forall. intros c Hc.
    apply in_map_iff in Hc. destruct Hc as [kv [<- Hkv]].
    exact (proj1 (Forall_forall _ _) Hnonneg kv Hkv).
  - exact Hsum.
  - apply Forall_forall. intros r Hin.
    unfold values in Hin. apply in_map_iff in Hin.
    destruct Hin as [[k r'] [Heq Hin]]. simpl in Heq. subst r'.
    destruct (results_loop_entries _ _ _ _ _ _ Hresults k r Hin)
      as [[]|[v [_ Hr]]].
    destruct (choice_result_inv _ _ _ _ _ _ Hr)
      as [c [lo [hi [count [_ [_ [_ [Hcount [_ ->]]]]]]]]].
    simpl. apply get_In in Hcount.
    pose proof (count_le_sum wc k count Hnonneg Hcount) as Hle.
    pose proof (proj1 (Forall_forall _ _) Hnonneg (k, count) Hcount) as Hge.
    simpl in Hge. rewrite Hsum in Hle. split.
    + apply Qle_shift_div_l; [exact Hpos|]. rewrite Qmult_0_l.
      unfold Qle. simpl. lia.
    + apply Qle_shift_div_r; [exact Hpos|]. rewrite Qmult_1_l.
      unfold Qle. simpl. lia.
Qed.

Lemma X13_win_rates_are_counts_over_runs_witness :
  exists counts : list Z,
    map ChoiceResult.win_rate (values (choice_results report3)) =
      map (fun c => inject_Z c / inject_Z (num_simulations report3)) counts /\
    Forall (fun c => (0 <= c)%Z) counts /\
    fold_right Z.add 0%Z counts = num_simulations report3 /\
    Forall (fun r => 0 <= ChoiceResult.win_rate r <= 1)
           (values (choice_results report3)).
Proof.
  apply (X13_win_rates_are_counts_over_runs [stay; move] [cost; joy] marks
           3 tape report3).
  - discriminate.
  - vm_compute. reflexivity.
Defined.

(** ** One step of the sensitivity sweep *)

Lemma sensitivity_step_eq (factor_id : Z) (original_weight : Q)
  (results : list SensitivityEntry) (m : Q) (self : DecisionSimulator) :
  sensitivity_step factor_id original_weight results m self =
  match get factor_id (normalized_weights self) with
  | None => (Raise KeyError, self)
  | Some old_weight =>
      let table :=
        set factor_id (original_weight * m) (normalized_weights self) in
      match renormalize (py_sum (values table)) table with
      | Raise e => (Raise e, with_weights self table)
      | Ok temp =>
          match name_scores (with_weights self temp) with
          | Raise e => (Raise e, with_weights self temp)
          | Ok named =>
              match py_max_key named with
              | Raise e => (Raise e, with_weights self temp)
              | Ok best =>
                  (Ok (results ++ [mkEntry m named best]),
                   with_weights self (set factor_id old_weight temp))
              end
          end
      end
  end.
Proof.
  unfold sensitivity_step, store_weight, bindM, read, lift, assign_weights,
    ret, getitem, with_weights.
  destruct (get factor_id (normalized_weights self)) as [old_weight|];
    [|reflexivity].
  cbn [normalized_weights choices factors scores].
  destruct (renormalize _ _) as [temp|e]; [|reflexivity].
  cbn [normalized_weights choices factors scores].
  destruct (name_scores _) as [named|e]; [|reflexivity].
  destruct (py_max_key named) as [best|e]; reflexivity.
Qed.

Lemma sensitivity_analysis_eq (factor_id : Z) (weight_range : Q * Q)
  (steps : Z) (self : DecisionSimulator) :
  sensitivity_analysis factor_id weight_range steps self =
  match linspace (fst weight_range) (snd weight_range) steps with
  | Raise e => (Raise e, self)
  | Ok multipliers =>
      match for_eachM
              (sensitivity_step factor_id
                 match get factor_id (normalized_weights self) with
                 | Some w => w
                 | None => 1
                 end) multipliers [] self with
      | (Raise e, after) => (Raise e, after)
      | (Ok results, after) =>
          match get factor_id (factors after) with
          | Some f => (Ok (mkSensitivity factor_id (Factor.name f) results),
                       after)
          | None => (Raise KeyError, after)
          end
      end
  end.
Proof.
  unfold sensitivity_analysis, bindM, read, lift, ret, getitem.
  destruct (linspace _ _ steps) as [ms|e]; [|reflexivity].
  destruct (for_eachM _ ms [] self) as [[results|e] after]; [|reflexivity].
  destruct (get factor_id (factors after)); reflexivity.
Qed.

Lemma for_eachM_cons {A B : Type} (f : A -> B -> M A) (x : B) (l : list B)
  (acc : A) (self : DecisionSimulator) :
  for_eachM f (x :: l) acc self =
  match f acc x self with
  | (Ok acc', self') => for_eachM f l acc' self'
  | (Raise e, self') => (Raise e, self')
  end.
Proof. reflexivity. Qed.

(** Renormalizing a table with distinct keys divides every weight by
    the total and keeps keys and order. *)
Lemma renormalize_inv (total : Q) (table temp : dict Z Q) :
  NoDup (keys table) ->
  renormalize total table = Ok temp ->
  temp = map (fun kv => (fst kv, snd kv / total)) table /\
  (table <> [] -> ~ total == 0).
Proof.
  unfold renormalize, np_div.
  destruct (Qeq_bool total 0) eqn:E.
  - intros _ Hrun. destruct table as [|[k v] table].
    + simpl in Hrun. injection Hrun as <-.
      split; [reflexivity | intro Hne; contradiction].
    + simpl in Hrun. discriminate.
  - assert (Hgen : forall acc temp,
               NoDup (keys table) ->
               (forall k, In k (keys table) -> ~ In k (keys acc)) ->
               for_each (fun temp (item : Z * Q) =>
                           let (k, v) := item in
                           (q <- Ok (v / total) ;; Ok (set k q temp))%py)
                        table acc = Ok temp ->
               temp = acc ++ map (fun kv => (fst kv, snd kv / total)) table).
    { induction table as [|[k v] table IH]; intros acc temp0 Hnd Hfresh Hrun.
      - simpl in Hrun. injection Hrun as <-. rewrite app_nil_r. reflexivity.
      - rewrite for_each_cons in Hrun. simpl bind in Hrun.
        simpl in Hnd. apply NoDup_cons_iff in Hnd. destruct Hnd as [Hk Hnd].
        assert (Habs : get k acc = None).
        { apply get_None_keys. apply Hfresh. left. reflexivity. }
        rewrite (set_absent k _ acc Habs) in Hrun.
        apply IH in Hrun; [|exact Hnd|].
        + rewrite Hrun, <- app_assoc. reflexivity.
        + intros k' Hin Hk'. unfold keys in Hk'. rewrite map_app in Hk'.
          apply in_app_iff in Hk'. destruct Hk' as [Hk'|[<-|[]]].
          * apply (Hfresh k'); [right; exact Hin | exact Hk'].
          * contradiction. }
    intros Hnd Hrun. split.
    + apply (Hgen [] temp Hnd); [intros k _ [] | exact Hrun].
    + intros _. apply Qeq_bool_neq. exact E.
Qed.

Lemma keys_map_values {K : Type} (g : K * Q -> Q) (d : dict K Q) :
  keys (map (fun kv => (fst kv, g kv)) d) = keys d.
Proof.
  unfold keys. rewrite map_map. reflexivity.
Qed.

(** ** What a sweep leaves behind *)

Lemma keys_set_same {V : Type} (k : Z) (v : V) (d : dict Z V) :
  In k (keys d) -> keys (set k v d) = keys d.
Proof.
  intro Hin. destruct (get_Some_keys k d Hin) as [v0 Hv0].
  exact (keys_set_present k v v0 d Hv0).
Qed.

Lemma sensitivity_step_frame (factor_id : Z) (original_weight : Q)
  (results : list SensitivityEntry) (m : Q) (self : DecisionSimulator) :
  NoDup (keys (normalized_weights self)) ->
  let after := snd (sensitivity_step factor_id original_weight results m self) in
  choices after = choices self /\
  factors after = factors self /\
  scores after = scores self /\
  keys (normalized_weights after) = keys (normalized_weights self).
Proof.
  intro Hnd. rewrite sensitivity_step_eq.
  destruct (get factor_id (normalized_weights self)) as [old_weight|] eqn:Eold;
    [|simpl; auto].
  assert (Hin : In factor_id (keys (normalized_weights self))).
  { destruct (in_dec Z.eq_dec factor_id (keys (normalized_weights self)))
      as [Hin|Hnin]; [exact Hin|].
    apply get_None_keys in Hnin. congruence. }
  pose proof (keys_set_same factor_id (original_weight * m) _ Hin) as Hk1.
  cbv zeta.
  destruct (renormalize _ _) as [temp|e] eqn:Etemp; [|simpl; auto].
  apply renormalize_inv in Etemp; [|rewrite Hk1; exact Hnd].
  destruct Etemp as [Htemp _].
  assert (Hk2 : keys temp = keys (normalized_weights self)).
  { rewrite Htemp, keys_map_values. exact Hk1. }
  destruct (name_scores _) as [named|e]; [|simpl; auto].
  destruct (py_max_key named) as [best|e]; [|simpl; auto].
  simpl. repeat split.
  rewrite keys_set_same; [exact Hk2 | rewrite Hk2; exact Hin].
Qed.

Lemma sweep_frame (factor_id : Z) (original_weight : Q) (ms : list Q) :
  forall (results : list SensitivityEntry) (self : DecisionSimulator),
    NoDup (keys (normalized_weights self)) ->
    let after :=
      snd (for_eachM (sensitivity_step factor_id original_weight)
             ms results self) in
    choices after = choices self /\
    factors after = factors self /\
    scores after = scores self /\
    keys (normalized_weights after) = keys (normalized_weights self).
Proof.
  induction ms as [|m ms IH]; intros results self Hnd.
  - simpl. auto.
  - rewrite for_eachM_cons.
    pose proof (sensitivity_step_frame factor_id original_weight results m
                  self Hnd) as Hstep.
    destruct (sensitivity_step factor_id original_weight results m self)
      as [[results'|e] self1]; simpl in Hstep; [|exact Hstep].
    destruct Hstep as [Hc [Hf [Hs Hk]]].
    assert (Hnd1 : NoDup (keys (normalized_weights self1)))
      by (rewrite Hk; exact Hnd).
    specialize (IH results' self1 Hnd1). cbv zeta in IH |- *.
    destruct IH as [Hc' [Hf' [Hs' Hk']]].
    repeat split; congruence.
Qed.

(** X14. Whatever a sensitivity sweep returns or raises, it leaves the
    choices, the factors and the organized scores of the simulator as
    they were, and the weight table with the same factor ids in the
    same order: only the weights themselves can have changed. *)
Theorem X14_sweep_changes_weights_only
  (factor_id : Z) (weight_range : Q * Q) (steps : Z)
  (self : DecisionSimulator) :
  NoDup (keys (normalized_weights self)) ->
  let after := snd (sensitivity_analysis factor_id weight_range steps self) in
  choices after = choices self /\
  factors after = factors self /\
  scores after = scores self /\
  keys (normalized_weights after) = keys (normalized_weights self).
Proof.
  intro Hnd. rewrite sensitivity_analysis_eq.
  destruct (linspace _ _ steps) as [ms|e]; [|simpl; auto].
  pose proof (sweep_frame factor_id
                match get factor_id (normalized_weights self) with
                | Some w => w
                | None => 1
                end ms [] self Hnd) as Hframe.
  cbv zeta in Hframe |- *.
  destruct (for_eachM _ ms [] self) as [[results|e] after];
    simpl in Hframe; [|exact Hframe].
  destruct (get factor_id (factors after)); exact Hframe.
Qed.

Lemma X14_sweep_changes_weights_only_witness :
  let after := snd (sensitivity_analysis 1 (9, 1) 2 sim) in
  choices after = choices sim /\
  factors after = factors sim /\
  scores after = scores sim /\
  keys (normalized_weights after) = keys (normalized_weights sim).
Proof.
  apply (X14_sweep_changes_weights_only 1 (9, 1) 2 sim).
  vm_compute. constructor.
  - intros [Heq|[]]. discriminate.
  - constructor; [intros [] | constructor].
Defined.

(** ** What a sweep reports *)

Lemma sensitivity_step_inv (factor_id : Z) (original_weight : Q)
  (results res : list SensitivityEntry) (m : Q)
  (self after : DecisionSimulator) :
  sensitivity_step factor_id original_weight results m self = (Ok res, after) ->
  factors after = factors self /\
  choices after = choices self /\
  exists temp named best,
    name_scores (with_weights self temp) = Ok named /\
    py_max_key named = Ok best /\
    res = results ++ [mkEntry m named best].
Proof.
  rewrite sensitivity_step_eq.
  destruct (get factor_id (normalized_weights self)) as [old_weight|];
    [|discriminate].
  cbv zeta. destruct (renormalize _ _) as [temp|e]; [|discriminate].
  destruct (name_scores (with_weights self temp)) as [named|e] eqn:Enamed;
    [|discriminate].
  destruct (py_max_key named) as [best|e] eqn:Ebest; [|discriminate].
  intros [= <- <-]. split; [reflexivity|]. split; [reflexivity|].
  exists temp, named, best. repeat split; assumption.
Qed.

Lemma name_scores_names (self : DecisionSimulator) (named : dict string Q) :
  name_scores self = Ok named ->
  forall nm, In nm (keys named) ->
    exists c, In c (values (choices self)) /\ Choice.name c = nm.
Proof.
  unfold name_scores.
  assert (Hgen : forall l acc res,
             for_each (fun named cid =>
                         (c <- getitem cid (choices self) ;;
                          Ok (set (Choice.name c)
                                (calculate_weighted_score self cid) named))%py)
                      l acc = Ok res ->
             forall nm, In nm (keys res) ->
               In nm (keys acc) \/
               exists c, In c (values (choices self)) /\ Choice.name c = nm).
  { induction l as [|cid l IH]; intros acc res Hrun nm Hin.
    - simpl in Hrun. injection Hrun as <-. left. exact Hin.
    - rewrite for_each_cons in Hrun. unfold getitem in Hrun.
      destruct (get cid (choices self)) as [c|] eqn:Ec; simpl bind in Hrun;
        [|discriminate].
      destruct (IH _ _ Hrun nm Hin) as [Hacc|Hex]; [|right; exact Hex].
      apply keys_set_iff in Hacc. destruct Hacc as [->|Hacc].
      + right. exists c. split; [|reflexivity].
        apply get_In in Ec. unfold values.
        change c with (snd (cid, c)). apply in_map. exact Ec.
      + left. exact Hacc. }
  intros Hrun nm Hin. destruct (Hgen _ _ _ Hrun nm Hin) as [[]|Hex].
  exact Hex.
Qed.

Lemma sweep_entries (factor_id : Z) (original_weight : Q) (ms : list Q) :
  forall (results res : list SensitivityEntry)
         (self after : DecisionSimulator),
    for_eachM (sensitivity_step factor_id original_weight) ms results self =
      (Ok res, after) ->
    factors after = factors self /\
    exists new,
      res = results ++ new /\
      map multiplier new = ms /\
      Forall (fun e =>
                py_max_key (entry_scores e) = Ok (winner e) /\
                forall nm, In nm (keys (entry_scores e)) ->
                  exists c, In c (values (choices self)) /\
                            Choice.name c = nm) new.
Proof.
  induction ms as [|m ms IH]; intros results res self after Hrun.
  - simpl in Hrun. injection Hrun as <- <-. split; [reflexivity|].
    exists []. rewrite app_nil_r. repeat split. constructor.
  - rewrite for_eachM_cons in Hrun.
    destruct (sensitivity_step factor_id original_weight results m self)
      as [[res1|e] self1] eqn:Estep; [|discriminate].
    destruct (sensitivity_step_inv _ _ _ _ _ _ _ Estep)
      as [Hf1 [Hch1 [temp [named [best [Hnamed [Hbest ->]]]]]]].
    destruct (IH _ _ _ _ Hrun) as [Hf [new [-> [Hms Hall]]]].
    split; [congruence|].
    exists (mkEntry m named best :: new). split; [|split].
    + rewrite <- app_assoc. reflexivity.
    + simpl. rewrite Hms. reflexivity.
    + constructor.
      * simpl. split; [exact Hbest|].
        exact (name_scores_names _ named Hnamed).
      * rewrite Hch1 in Hall. exact Hall.
Qed.



(** ** A sweep that starts at multiplier 1 *)

Lemma same_table_refl {K : Type} (d : dict K Q) : same_table d d.
Proof.
  unfold same_table. induction d as [|kv d IH]; constructor.
  - split; reflexivity.
  - exact IH.
Qed.

Lemma same_table_trans {K : Type} (d1 d2 d3 : dict K Q) :
  same_table d1 d2 -> same_table d2 d3 -> same_table d1 d3.
Proof.
  unfold same_table. intro H12. revert d3.
  induction H12 as [|kv1 kv2 d1 d2 [Hk Hv] _ IH]; intros d3 H23.
  - inversion H23. constructor.
  - inversion H23 as [|kv2' kv3 d2' d3' [Hk' Hv'] Hrest]; subst.
    constructor.
    + split; [congruence | rewrite Hv; exact Hv'].
    + apply IH. exact Hrest.
Qed.

Lemma same_table_set {K : Type} `{EqKey K} (k : K) (v1 v2 : Q)
  (d1 d2 : dict K Q) :
  same_table d1 d2 -> v1 == v2 -> same_table (set k v1 d1) (set k v2 d2).
Proof.
  unfold same_table. intros Hd Hv.
  induction Hd as [|[k1 w1] [k2 w2] d1 d2 [Hk Hw] Hrest IH]; simpl.
  - constructor; [split; [reflexivity | exact Hv] | constructor].
  - simpl in Hk. subst k2. destruct (keqb k k1).
    + constructor; [split; [reflexivity | exact Hv] | exact Hrest].
    + constructor; [split; [reflexivity | exact Hw] | exact IH].
Qed.

Lemma same_table_set_self {K : Type} `{EqKey K} (k : K) (v v' : Q)
  (d : dict K Q) :
  get k d = Some v -> v' == v -> same_table (set k v' d) d.
Proof.
  unfold same_table. induction d as [|[k0 w0] d IH]; simpl; [discriminate|].
  destruct (keqb k k0) eqn:E.
  - intros [= ->] Hv. apply keqb_eq in E. subst k0.
    constructor; [split; [reflexivity | exact Hv] | apply same_table_refl].
  - intros Hg Hv. constructor; [split; reflexivity | exact (IH Hg Hv)].
Qed.

Lemma same_table_sum {K : Type} (d1 d2 : dict K Q) :
  same_table d1 d2 -> py_sum (values d1) == py_sum (values d2).
Proof.
  unfold same_table, values.
  induction 1 as [|kv1 kv2 d1 d2 [_ Hv] _ IH]; [reflexivity|].
  cbn [map]. rewrite !py_sum_cons, Hv, IH. reflexivity.
Qed.

Lemma same_table_divided {K : Type} (total : Q) (d : dict K Q) :
  total == 1 -> same_table (map (fun kv => (fst kv, snd kv / total)) d) d.
Proof.
  intro Htotal. unfold same_table. induction d as [|[k v] d IH]; simpl.
  - constructor.
  - constructor; [|exact IH]. split; [reflexivity|]. simpl.
    rewrite Htotal. field.
Qed.

Lemma weighted_fold_same (row : dict Z Score.t) (t1 t2 : dict Z Q) :
  same_table t1 t2 ->
  forall a1 a2, a1 == a2 ->
    fold_left (weighted_step row) t1 a1 == fold_left (weighted_step row) t2 a2.
Proof.
  unfold same_table.
  induction 1 as [|[k1 w1] [k2 w2] t1 t2 [Hk Hw] _ IH]; intros a1 a2 Ha.
  - exact Ha.
  - simpl in Hk, Hw. subst k2. cbn [fold_left]. apply IH.
    unfold weighted_step. destruct (get k1 row) as [s|]; [|exact Ha].
    rewrite Ha, Hw. reflexivity.
Qed.

Lemma calculate_weighted_score_same (self : DecisionSimulator)
  (t1 t2 : dict Z Q) (c : Z) :
  same_table t1 t2 ->
  calculate_weighted_score (with_weights self t1) c ==
  calculate_weighted_score (with_weights self t2) c.
Proof.
  intro Hsame. unfold calculate_weighted_score, with_weights. simpl.
  destruct (get c (scores self)) as [row|]; [|reflexivity].
  apply weighted_fold_same; [exact Hsame | reflexivity].
Qed.

Lemma name_scores_same (self : DecisionSimulator) (t1 t2 : dict Z Q)
  (n1 n2 : dict string Q) :
  same_table t1 t2 ->
  name_scores (with_weights self t1) = Ok n1 ->
  name_scores (with_weights self t2) = Ok n2 ->
  same_table n1 n2.
Proof.
  intro Hsame. unfold name_scores.
  change (choices (with_weights self t1)) with (choices self).
  change (choices (with_weights self t2)) with (choices self).
  generalize (keys (choices self)) as l.
  assert (Hacc : same_table (@nil (string * Q)) []) by constructor.
  revert Hacc. generalize (@nil (string * Q)) at 1 3 as acc1.
  generalize (@nil (string * Q)) as acc2.
  intros acc2 acc1 Hacc l. revert acc1 acc2 Hacc n1 n2.
  induction l as [|cid l IH]; intros acc1 acc2 Hacc n1 n2 H1 H2.
  - simpl in H1, H2. injection H1 as <-. injection H2 as <-. exact Hacc.
  - rewrite for_each_cons in H1, H2. unfold getitem in H1, H2.
    destruct (get cid (choices self)) as [c|]; simpl bind in H1, H2;
      [|discriminate].
    apply (IH _ _ (same_table_set _ _ _ _ _ Hacc
                     (calculate_weighted_score_same self t1 t2 cid Hsame))
              _ _ H1 H2).
Qed.

Lemma with_weights_self (self : DecisionSimulator) :
  with_weights self (normalized_weights self) = self.
Proof. destruct self. reflexivity. Qed.

Lemma name_scores_total (self : DecisionSimulator) :
  exists named, name_scores self = Ok named.
Proof.
  unfold name_scores. apply for_each_total.
  intros acc cid Hin.
  destruct (getitem_present cid (choices self) Hin) as [c [Hc _]].
  rewrite Hc. simpl bind. eexists. reflexivity.
Qed.

Lemma sensitivity_step_detail (factor_id : Z) (original_weight : Q)
  (results res : list SensitivityEntry) (m : Q)
  (self after : DecisionSimulator) :
  sensitivity_step factor_id original_weight results m self = (Ok res, after) ->
  exists old_weight temp named best,
    get factor_id (normalized_weights self) = Some old_weight /\
    renormalize
      (py_sum (values (set factor_id (original_weight * m)
                         (normalized_weights self))))
      (set factor_id (original_weight * m) (normalized_weights self)) =
      Ok temp /\
    name_scores (with_weights self temp) = Ok named /\
    py_max_key named = Ok best /\
    res = results ++ [mkEntry m named best] /\
    after = with_weights self (set factor_id old_weight temp).
Proof.
  rewrite sensitivity_step_eq.
  destruct (get factor_id (normalized_weights self)) as [old_weight|];
    [|discriminate].
  cbv zeta. destruct (renormalize _ _) as [temp|e] eqn:Etemp; [|discriminate].
  destruct (name_scores (with_weights self temp)) as [named|e] eqn:Enamed;
    [|discriminate].
  destruct (py_max_key named) as [best|e] eqn:Ebest; [|discriminate].
  intros [= <- <-]. exists old_weight, temp, named, best.
  repeat split; assumption.
Qed.

Lemma linspace_first (lo hi : Q) (steps : Z) :
  (1 <= steps)%Z ->
  exists m0 ms, linspace lo hi steps = Ok (m0 :: ms) /\ m0 == lo /\
                (steps = 1%Z -> ms = []).
Proof.
  intro Hsteps. unfold linspace.
  destruct (Z.ltb_spec steps 0) as [Hneg|_]; [lia|].
  destruct (Z.to_nat steps) as [|n] eqn:En; [lia|].
  cbn [seq map].
  assert (E : ((1 <? steps) && (Z.of_nat 0 =? steps - 1))%Z = false).
  { destruct (Z.ltb_spec 1 steps) as [Hgt|Hle]; [|reflexivity].
    apply andb_false_iff. right. apply Z.eqb_neq. simpl. lia. }
  rewrite E. eexists. eexists. split; [reflexivity|]. split.
  - simpl. ring.
  - intro H1. assert (n = O) by lia. subst n. reflexivity.
Qed.

(** X16. A sweep that starts at multiplier 1 on a weight table with
    distinct keys that sums to 1 reports, in its first entry, the
    unperturbed deterministic scores: the entry's scores are, name by
    name and as numbers, the scores [calculate_weighted_score] gives
    before the sweep.  When that step is the only one, the sweep also
    leaves every weight as it was. *)
Theorem X16_sweep_from_one_starts_unperturbed
  (factor_id : Z) (lo hi : Q) (steps : Z)
  (self after : DecisionSimulator) (report : SensitivityReport) :
  NoDup (keys (normalized_weights self)) ->
  py_sum (values (normalized_weights self)) == 1 ->
  lo == 1 ->
  (1 <= steps)%Z ->
  sensitivity_analysis factor_id (lo, hi) steps self = (Ok report, after) ->
  (exists e rest base,
     analysis report = e :: rest /\
     multiplier e == 1 /\
     name_scores self = Ok base /\
     same_table (entry_scores e) base) /\
  (steps = 1%Z ->
   same_table (normalized_weights after) (normalized_weights self)).
Proof.
  intros Hnd Hsum Hlo Hsteps. rewrite sensitivity_analysis_eq.
  cbn [fst snd].
  destruct (linspace_first lo hi steps Hsteps) as [m0 [ms [Hlin [Hm0 Hone]]]].
  rewrite Hlin, for_eachM_cons.
  set (ow := match get factor_id (normalized_weights self) with
             | Some w => w
             | None => 1
             end).
  destruct (sensitivity_step factor_id ow [] m0 self)
    as [[res1|e] self1] eqn:Estep; [|discriminate].
  destruct (sensitivity_step_detail _ _ _ _ _ _ _ Estep)
    as [old [temp [named [best [Hold [Htemp [Hnamed [Hbest [Hres1 Hself1]]]]]]]]].
  simpl in Hres1. subst res1.
  assert (How : ow = old) by (unfold ow; rewrite Hold; reflexivity).
  assert (Hm1 : ow * m0 == old) by (rewrite How, Hm0, Hlo; ring).
  pose proof (same_table_set_self factor_id old (ow * m0) _ Hold Hm1)
    as Htable.
  assert (Hin : In factor_id (keys (normalized_weights self))).
  { destruct (in_dec Z.eq_dec factor_id (keys (normalized_weights self)))
      as [Hin|Hnin]; [exact Hin|].
    apply get_None_keys in Hnin. congruence. }
  apply renormalize_inv in Htemp;
    [|rewrite (keys_set_same factor_id _ _ Hin); exact Hnd].
  destruct Htemp as [Htemp _].
  assert (Htotal : py_sum (values (set factor_id (ow * m0)
                                     (normalized_weights self))) == 1).
  { rewrite (same_table_sum _ _ Htable). exact Hsum. }
  assert (Hsame : same_table temp (normalized_weights self)).
  { rewrite Htemp.
    apply same_table_trans with (2 := Htable).
    apply same_table_divided. exact Htotal. }
  destruct (for_eachM (sensitivity_step factor_id ow) ms
              [mkEntry m0 named best] self1)
    as [[results|e] self2] eqn:Eloop; [|discriminate].
  destruct (sweep_entries _ _ _ _ _ _ _ Eloop) as [_ [new [Hres _]]].
  destruct (get factor_id (factors self2)) as [f|]; [|discriminate].
  intros [= <- <-]. split.
  - destruct (name_scores_total self) as [base Hbase].
    exists (mkEntry m0 named best), new, base. simpl.
    split; [exact Hres|]. split; [rewrite Hm0; exact Hlo|].
    split; [exact Hbase|].
    rewrite <- (with_weights_self self) in Hbase.
    exact (name_scores_same self temp _ named base Hsame Hnamed Hbase).
  - intro H1. rewrite (Hone H1) in Eloop. simpl in Eloop.
    injection Eloop as _ <-. rewrite Hself1. simpl.
    apply same_table_trans with (set factor_id old (normalized_weights self)).
    + apply same_table_set; [exact Hsame | reflexivity].
    + apply (same_table_set_self factor_id old old _ Hold). reflexivity.
Qed.

Lemma X16_sweep_from_one_starts_unperturbed_witness :
  (exists e rest base,
     analysis unit_report = e :: rest /\
     multiplier e == 1 /\
     name_scores sim = Ok base /\
     same_table (entry_scores e) base) /\
  (3%Z = 1%Z ->
   same_table (normalized_weights unit_after) (normalized_weights sim)).
Proof.
  apply (X16_sweep_from_one_starts_unperturbed 1 1 3 3 sim
           unit_after unit_report).
  - vm_compute. constructor.
    + intros [Heq|[]]. discriminate.
    + constructor; [intros [] | constructor].
  - vm_compute. reflexivity.
  - reflexivity.
  - lia.
  - vm_compute. reflexivity.
Defined.

(** ** A sweep without choices *)

(** X17. On a simulator without choices a sweep of at least one step
    never returns a report: whatever the factor and the range, it
    raises. *)
Theorem X17_sweep_needs_a_choice
  (factor_id : Z) (weight_range : Q * Q) (steps : Z)
  (self : DecisionSimulator) :
  choices self = [] ->
  (1 <= steps)%Z ->
  exists e,
    fst (sensitivity_analysis factor_id weight_range steps self) = Raise e.
Proof.
  intros Hempty Hsteps.
  destruct (sensitivity_analysis factor_id weight_range steps self)
    as [[report|e] after] eqn:Esweep; [|exists e; reflexivity].
  exfalso. rewrite sensitivity_analysis_eq in Esweep.
  destruct (linspace_first (fst weight_range) (snd weight_range) steps Hsteps)
    as [m0 [ms [Hlin _]]].
  rewrite Hlin in Esweep.
  destruct (for_eachM _ (m0 :: ms) [] self) as [[results|e] self1] eqn:Eloop;
    [|discriminate].
  destruct (sweep_entries _ _ _ _ _ _ _ Eloop) as [_ [new [_ [Hms Hall]]]].
  destruct new as [|e new]; [discriminate|].
  apply Forall_inv in Hall. destruct Hall as [Hbest Hnames].
  destruct (Hnames (winner e) (py_max_key_in _ _ Hbest)) as [c [Hc _]].
  rewrite Hempty in Hc. exact Hc.
Qed.

Lemma X17_sweep_needs_a_choice_witness :
  exists e,
    fst (sensitivity_analysis 1 (1 # 2, 2) 10 (init [] [cost; joy] marks)) =
    Raise e.
Proof.
  apply (X17_sweep_needs_a_choice 1 (1 # 2, 2) 10 (init [] [cost; joy] marks)).
  - reflexivity.
  - lia.
Defined.

(** ** Win rates by name *)

Lemma win_rates_loop (self : DecisionSimulator) (num_runs : Z)
  (wc : dict Z Z) :
  forall acc rates : dict string Q,
    NoDup (map (name_of self) (keys wc)) ->
    (forall k, In k (keys wc) -> ~ In (name_of self k) (keys acc)) ->
    for_each (win_rate_step self num_runs) wc acc = Ok rates ->
    rates = acc ++ map (fun kv => (name_of self (fst kv),
                                   inject_Z (snd kv) / inject_Z num_runs)) wc.
Proof.
  induction wc as [|[k c] wc IH]; intros acc rates Hnd Hfresh Hrun.
  - simpl in Hrun. injection Hrun as <-. rewrite app_nil_r. reflexivity.
  - rewrite for_each_cons in Hrun. unfold win_rate_step at 1 in Hrun.
    unfold getitem, py_div in Hrun.
    destruct (get k (choices self)) as [ch|] eqn:Ech; simpl bind in Hrun;
      [|discriminate].
    destruct (Qeq_bool (inject_Z num_runs) 0); simpl bind in Hrun;
      [discriminate|].
    assert (Hname : name_of self k = Choice.name ch)
      by (unfold name_of; rewrite Ech; reflexivity).
    simpl in Hnd. apply NoDup_cons_iff in Hnd. destruct Hnd as [Hk Hnd].
    assert (Habs : get (Choice.name ch) acc = None).
    { apply get_None_keys. rewrite <- Hname. apply Hfresh. left. reflexivity. }
    rewrite (set_absent _ _ acc Habs) in Hrun.
    apply IH in Hrun; [|exact Hnd|].
    + rewrite Hrun, <- app_assoc. cbn [map fst snd app].
      rewrite Hname. reflexivity.
    + intros k' Hin Hk'. unfold keys in Hk'. rewrite map_app in Hk'.
      apply in_app_iff in Hk'. destruct Hk' as [Hk'|[Heq|[]]].
      * apply (Hfresh k'); [right; exact Hin | exact Hk'].
      * simpl in Heq. apply Hk. rewrite Hname, Heq.
        apply in_map. exact Hin.
Qed.

Lemma named_rates_of_entries (self : DecisionSimulator) (wc : dict Z Z)
  (num_runs : Z) (ar : dict Z (list Q)) (rs : dict Z ChoiceResult.t) :
  Forall2 (fun kv kr =>
             fst kr = fst kv /\
             choice_result self wc num_runs (fst kv) (snd kv) = Ok (snd kr))
          ar rs ->
  map (fun r => (ChoiceResult.name r, ChoiceResult.win_rate r)) (values rs) =
  map (fun k => (name_of self k,
                 match get k wc with
                 | Some c => inject_Z c / inject_Z num_runs
                 | None => 0
                 end)) (keys ar).
Proof.
  induction 1 as [|[k v] [k' r] ar rs [_ Hr] _ IH]; [reflexivity|].
  simpl in Hr. unfold values, keys in *. cbn [map fst snd]. rewrite IH.
  destruct (choice_result_inv _ _ _ _ _ _ Hr)
    as [c [lo [hi [count [Hc [_ [_ [Hcount [_ ->]]]]]]]]].
  unfold name_of. rewrite Hcount, Hc. reflexivity.
Qed.

Lemma name_of_init (cs : list Choice.t) (fs : list Factor.t)
  (ss : list Score.t) :
  NoDup (map Choice.id cs) ->
  map (name_of (init cs fs ss)) (keys (choices (init cs fs ss))) =
  map Choice.name cs.
Proof.
  intro Hnd. simpl choices. rewrite (dict_of_keys_NoDup _ _ cs Hnd).
  rewrite map_map. apply map_ext_in. intros c Hin. unfold name_of.
  simpl choices. rewrite (dict_of_distinct Choice.id cs Hnd c Hin).
  reflexivity.
Qed.

(** X18. When the supplied choices have pairwise distinct ids and
    pairwise distinct names, the [win_rates] table of a report lists,
    in the order of the statistics entries, the name and the win rate
    of each entry. *)
Theorem X18_win_rates_follow_the_entries {G : Type} `{Generator G}
  (cs : list Choice.t) (fs : list Factor.t) (ss : list Score.t)
  (num_runs : Z) (rng : G) (report : SimulationReport) :
  NoDup (map Choice.id cs) ->
  NoDup (map Choice.name cs) ->
  run_simulation (init cs fs ss) num_runs rng = Ok report ->
  win_rates report =
  map (fun r => (ChoiceResult.name r, ChoiceResult.win_rate r))
      (values (choice_results report)).
Proof.
  intros Hids Hnames Hrun.
  pose proof (choices_init_distinct cs fs ss) as Hnd.
  destruct (run_simulation_anatomy _ num_runs rng report Hrun)
    as [ar [wc [g' [Hrounds [Hresults Hrates]]]]].
  set (runs := Z.min num_runs MAX_SIMULATION_RUNS) in *.
  pose proof (simulate_rounds_keys _ Hnd runs rng ar wc g' Hrounds) as Hkar.
  destruct (simulate_rounds_counts _ Hnd runs rng ar wc g' Hrounds)
    as [Hkwc _].
  assert (Hndar : NoDup (keys ar)) by (rewrite Hkar; exact Hnd).
  destruct (results_loop_Forall2 (init cs fs ss) wc runs ar []
              (choice_results report) Hndar (fun k _ Hin => Hin) Hresults)
    as [rs [Hres Hall]].
  simpl in Hres.
  rewrite Hres, (named_rates_of_entries _ _ _ _ _ Hall), Hkar, <- Hkwc.
  apply win_rates_loop in Hrates.
  - simpl in Hrates. rewrite Hrates. unfold keys. rewrite map_map.
    apply map_ext_in. intros [k c] Hin. simpl.
    rewrite (NoDup_get k c wc) by (try exact Hin; rewrite Hkwc; exact Hnd).
    reflexivity.
  - rewrite Hkwc, (name_of_init cs fs ss Hids). exact Hnames.
  - intros k _ [].
Qed.

Lemma X18_win_rates_follow_the_entries_witness :
  win_rates report3 =
  map (fun r => (ChoiceResult.name r, ChoiceResult.win_rate r))
      (values (choice_results report3)).
Proof.
  apply (X18_win_rates_follow_the_entries [stay; move] [cost; joy] marks
           3 tape report3).
  - simpl. constructor.
    + intros [Heq|[]]. discriminate.
    + constructor; [intros [] | constructor].
  - simpl. constructor.
    + intros [Heq|[]]. discriminate.
    + constructor; [intros [] | constructor].
  - vm_compute. reflexivity.
Defined.

(** ** What one step leaves in the shared table *)

Lemma py_sum_set (k : Z) (old v : Q) (d : dict Z Q) :
  get k d = Some old ->
  py_sum (values (set k v d)) == py_sum (values d) - old + v.
Proof.
  unfold values. induction d as [|[k0 w0] d IH]; simpl; [discriminate|].
  destruct (Z.eqb k k0) eqn:E.
  - intros [= ->]. cbn [map snd]. rewrite !py_sum_cons. ring.
  - intro Hg. cbn [map snd]. rewrite !py_sum_cons, (IH Hg). ring.
Qed.

Lemma get_map_values (g : Q -> Q) (d : dict Z Q) (k : Z) :
  get k (map (fun kv => (fst kv, g (snd kv))) d) = option_map g (get k d).
Proof.
  induction d as [|[k0 w0] d IH]; simpl; [reflexivity|].
  destruct (Z.eqb k k0); [reflexivity | exact IH].
Qed.

(** X20. What a sweep of a single step leaves in the shared weight
    table, when it returns a report and the step's total is not 0.
    With [w] the weight of the swept factor, the step's total is the
    sum of the table in which [w] has been replaced by [w * lo];
    afterwards the swept factor has weight [w] again, but every other
    factor has its old weight divided by that total: the other weights
    are not put back. *)
Theorem X20_single_step_leaves_others_rescaled
  (factor_id : Z) (lo hi : Q) (self after : DecisionSimulator)
  (report : SensitivityReport) :
  NoDup (keys (normalized_weights self)) ->
  sensitivity_analysis factor_id (lo, hi) 1 self = (Ok report, after) ->
  exists w total,
    get factor_id (normalized_weights self) = Some w /\
    total ==
      py_sum (values (set factor_id (w * lo) (normalized_weights self))) /\
    get factor_id (normalized_weights after) = Some w /\
    forall k, k <> factor_id ->
      get k (normalized_weights after) =
      option_map (fun v => v / total) (get k (normalized_weights self)).
Proof.
  intros Hnd. rewrite sensitivity_analysis_eq. cbn [fst snd].
  destruct (linspace_first lo hi 1) as [m0 [ms [Hlin [Hm0 Hone]]]]; [lia|].
  rewrite Hlin, (Hone eq_refl), for_eachM_cons.
  set (ow := match get factor_id (normalized_weights self) with
             | Some w => w
             | None => 1
             end).
  destruct (sensitivity_step factor_id ow [] m0 self)
    as [[res1|e] self1] eqn:Estep; [|discriminate].
  destruct (sensitivity_step_detail _ _ _ _ _ _ _ Estep)
    as [old [temp [named [best [Hold [Htemp [_ [_ [_ Hself1]]]]]]]]].
  assert (How : ow = old) by (unfold ow; rewrite Hold; reflexivity).
  assert (Hin : In factor_id (keys (normalized_weights self))).
  { destruct (in_dec Z.eq_dec factor_id (keys (normalized_weights self)))
      as [Hin|Hnin]; [exact Hin|].
    apply get_None_keys in Hnin. congruence. }
  pose proof (keys_set_same factor_id (ow * m0) _ Hin) as Hktable.
  apply renormalize_inv in Htemp; [|rewrite Hktable; exact Hnd].
  destruct Htemp as [Htemp _].
  cbn [for_eachM ret].
  destruct (get factor_id (factors self1)); [|discriminate].
  intros [= _ <-].
  exists old, (py_sum (values (set factor_id (ow * m0)
                                 (normalized_weights self)))).
  split; [exact Hold|]. split; [|split].
  - rewrite !(py_sum_set factor_id old _ _ Hold), How, Hm0. reflexivity.
  - rewrite Hself1. simpl. apply get_set_eq.
  - intros k Hk. rewrite Hself1. simpl.
    rewrite get_set_ne by congruence.
    rewrite Htemp.
    rewrite (get_map_values
               (fun v => v / py_sum (values (set factor_id (ow * m0)
                                               (normalized_weights self))))).
    rewrite get_set_ne by congruence. reflexivity.
Qed.

(** ** What clamping does to a draw *)

(** X21. A draw for a Score with positive uncertainty is cut at the
    ends of the score range and otherwise kept: a draw of 0 or less
    gives 0, a draw of 10 or more gives 10, a draw in between gives the
    draw itself. *)
Theorem X21_clamp_saturates {G : Type} `{Generator G}
  (s : Score.t) (rng : G) :
  0 < Score.uncertainty s ->
  let draw := fst (normal (Score.score s) (Score.uncertainty s) rng) in
  (draw <= 0 -> fst (sample_score s rng) = 0) /\
  (10 <= draw -> fst (sample_score s rng) = 10) /\
  (0 < draw < 10 -> fst (sample_score s rng) = draw).
Proof.
  intros Hu draw. unfold sample_score.
  apply Qltb_lt in Hu. rewrite Hu.
  unfold draw.
  destruct (normal (Score.score s) (Score.uncertainty s) rng) as [x g].
  cbn [fst]. unfold py_max, py_min. split; [|split].
  - intro Hx.
    assert (E1 : Qltb x 10 = true) by (apply Qltb_lt; lra).
    assert (E2 : Qltb 0 x = false) by (apply Qltb_ge; exact Hx).
    rewrite E1, E2. reflexivity.
  - intro Hx.
    assert (E1 : Qltb x 10 = false) by (apply Qltb_ge; exact Hx).
    rewrite E1. reflexivity.
  - intros [Hx0 Hx1].
    assert (E1 : Qltb x 10 = true) by (apply Qltb_lt; exact Hx1).
    assert (E2 : Qltb 0 x = true) by (apply Qltb_lt; exact Hx0).
    rewrite E1, E2. reflexivity.
Qed.

Lemma X21_clamp_saturates_witness :
  fst (sample_score noisy [-4]) = 0 /\
  fst (sample_score noisy [3]) = 10 /\
  fst (sample_score noisy [1 # 2]) =
    fst (normal (Score.score noisy) (Score.uncertainty noisy) [1 # 2]).
Proof.
  split; [|split].
  - apply (proj1 (X21_clamp_saturates noisy [-4] eq_refl)). discriminate.
  - apply (proj1 (proj2 (X21_clamp_saturates noisy [3] eq_refl))).
    discriminate.
  - apply (proj2 (proj2 (X21_clamp_saturates noisy [1 # 2] eq_refl))).
    split; reflexivity.
Defined.

Lemma X20_single_step_leaves_others_rescaled_witness :
  exists w total,
    get 1%Z (normalized_weights sim) = Some w /\
    total == py_sum (values (set 1%Z (w * 3) (normalized_weights sim))) /\
    get 1%Z (normalized_weights single_after) = Some w /\
    forall k, k <> 1%Z ->
      get k (normalized_weights single_after) =
      option_map (fun v => v / total) (get k (normalized_weights sim)).
Proof.
  apply (X20_single_step_leaves_others_rescaled 1 3 3 sim single_after
           single_report).
  - vm_compute. constructor.
    + intros [Heq|[]]. discriminate.
    + constructor; [intros [] | constructor].
  - vm_compute. reflexivity.
Defined.

(** ** The seed of a decision without uncertainty *)

Section CertainRun.
Context {G : Type} `{Generator G}.
Variable self : DecisionSimulator.
Hypothesis certain :
  forall c f s, score_at (scores self) c f = Some s ->
                Score.uncertainty s <= 0.

Lemma round_loop_any_rng (l : list Z) :
  forall (rs : dict Z Q) (ar : dict Z (list Q)) (g g' : G),
    for_each (round_step self) l (rs, ar, g) =
    match for_each (round_step self) l (rs, ar, g') with
    | Ok (rs', ar', _) => Ok (rs', ar', g)
    | Raise e => Raise e
    end.
Proof.
  induction l as [|k l IH]; intros rs ar g g'; [reflexivity|].
  rewrite !for_each_cons, !round_step_eq.
  rewrite !(simulate_once_certain self k _ (certain k)). cbn [fst snd].
  destruct (getitem k ar) as [series|e]; [apply IH | reflexivity].
Qed.

Lemma run_round_any_rng (ar : dict Z (list Q)) (wc : dict Z Z) (g g' : G) :
  run_round self (ar, wc, g) =
  match run_round self (ar, wc, g') with
  | Ok (ar', wc', _) => Ok (ar', wc', g)
  | Raise e => Raise e
  end.
Proof.
  unfold run_round.
  pose proof (round_loop_any_rng (keys (choices self)) [] ar g g') as Hloop.
  unfold dict in *. rewrite Hloop.
  match goal with
  | |- context [@for_each ?A ?B ?f ?l ?st] =>
      destruct (@for_each A B f l st) as [[[rs1 ar1] g1]|e]
  end; simpl bind; [|reflexivity].
  destruct (count_winner rs1 wc) as [wc1|e]; reflexivity.
Qed.

Lemma repeat_rounds_any_rng (n : nat) :
  forall (ar : dict Z (list Q)) (wc : dict Z Z) (g g' : G),
    repeat_rounds self n (ar, wc, g) =
    match repeat_rounds self n (ar, wc, g') with
    | Ok (ar', wc', _) => Ok (ar', wc', g)
    | Raise e => Raise e
    end.
Proof.
  induction n as [|n IH]; intros ar wc g g'; [reflexivity|].
  rewrite !repeat_rounds_S, (run_round_any_rng ar wc g g').
  destruct (run_round self (ar, wc, g')) as [[[ar1 wc1] g1]|e];
    [|reflexivity].
  rewrite (IH ar1 wc1 g g1). 
  destruct (repeat_rounds self n (ar1, wc1, g1)) as [[[ar2 wc2] g2]|e];
    reflexivity.
Qed.
End CertainRun.

(** X23. When no Score has a positive uncertainty the random stream
    plays no part: the rounds hand the stream back as they received
    it, and two calls that differ in the stream only (in the seed)
    return the same, report or error. *)
Theorem X23_certain_decision_ignores_seed {G : Type} `{Generator G}
  (cs : list Choice.t) (fs : list Factor.t) (ss : list Score.t)
  (num_runs : Z) (rng rng' : G) :
  (forall s, In s ss -> Score.uncertainty s <= 0) ->
  run_simulation (init cs fs ss) num_runs rng =
    run_simulation (init cs fs ss) num_runs rng' /\
  exists all_results win_counts,
    simulate_rounds (init cs fs ss) num_runs rng =
    Ok (all_results, win_counts, rng).
Proof.
  intro Hcertain.
  assert (Hat : forall c f s,
             score_at (scores (init cs fs ss)) c f = Some s ->
             Score.uncertainty s <= 0).
  { intros c f s Hs. apply Hcertain.
    exact (proj1 (score_at_supplied ss c f s Hs)). }
  split.
  - unfold run_simulation, simulate_rounds.
    rewrite (repeat_rounds_any_rng _ Hat _ _ _ rng rng').
    destruct (repeat_rounds _ _ (_, _, rng')) as [[[ar wc] g]|e]; reflexivity.
  - destruct (simulate_rounds_ok (init cs fs ss) num_runs rng)
      as [ar [wc [g' [Hrun _]]]].
    exists ar, wc. unfold simulate_rounds in *.
    cbv zeta in Hrun.
    match type of Hrun with
    | repeat_rounds _ ?n (?a, ?w, _) = _ =>
        pose proof (repeat_rounds_any_rng _ Hat n a w rng rng) as Hsame
    end.
    unfold dict in *.
    rewrite Hrun in Hsame. rewrite Hrun. exact Hsame.
Qed.

Lemma X23_certain_decision_ignores_seed_witness :
  run_simulation (init [stay; move] [cost; joy] marks) 3 tape =
    run_simulation (init [stay; move] [cost; joy] marks) 3 [] /\
  exists all_results win_counts,
    simulate_rounds (init [stay; move] [cost; joy] marks) 3 tape =
    Ok (all_results, win_counts, tape).
Proof.
  apply (X23_certain_decision_ignores_seed [stay; move] [cost; joy] marks
           3 tape []).
  intros s Hs. simpl in Hs.
  destruct Hs as [<-|[<-|[<-|[<-|[]]]]]; discriminate.
Defined.
